(** * bgio-effects: the React effects provider ([src/react/components.tsx])

    A shallow embedding of [EffectsProvider]: the requestAnimationFrame
    callback that plays a batch of timed effects, and the [useEffect] handler
    that installs a new batch when boardgame.io delivers one.

    Modelling conventions.
    - Times ([t], [endT], [duration], [performance.now()], [speed]) are JS
      numbers; they are modelled as rationals [Q]; NaN and infinities are
      outside the model.  The comparisons are those of the code.  [elapsed]
      is computed exactly where the code rounds to a double, so the theorems
      use it through comparisons only, or at clock values whose quotient by
      1000 is exact, and never through an identity of the arithmetic.
    - [boardProps] objects are only ever copied and compared by reference
      ([!==]).  A props object is a record carrying the handle [props_ref]
      that stands for its JS identity, and the part of [plugins] the provider
      reads.
    - The two mitt emitters are modelled by the log of what is published on
      them; the animation-frame loop of react-use by the flag [rafActive]
      that its [start]/[stop]/[isActive] functions set and read.
    - Every handler returns the new provider together with the ordered list
      of the externally visible calls it made ([Action]). *)

From Stdlib Require Import String List Bool Arith QArith Lia Lqa Sorted Permutation.
Import ListNotations.

(** ** Data model *)

(** One entry of [Queue] (src/types): a timed effect descriptor. *)
Record Effect := {
  type : string;
  payload : option string;
  t : Q;
  endT : Q
}.

Definition Queue := list Effect.

(** [effects.data] of the boardgame.io plugin. *)
Record Data := {
  data_id : string;
  data_queue : Queue;
  data_duration : Q
}.

(** [BoardProps]: the handle of the object and [plugins.effects] (absent when
    the plugin is not enabled). *)
Record BoardProps := {
  props_ref : nat;
  plugins_effects : option Data
}.

(** [a === b] on props objects. *)
Definition same_props (a b : BoardProps) : bool :=
  Nat.eqb (props_ref a) (props_ref b).

Record EffectsOpts := {
  speed : Q;
  updateStateAfterEffects : bool
}.

(** [opts: { speed = 1, updateStateAfterEffects = false } = {}] *)
Definition defaultOpts : EffectsOpts :=
  {| speed := 1; updateStateAfterEffects := false |}.

Record InteralState := {
  prevId : option string;
  startT : Q;
  bgioProps : BoardProps
}.

Record QueueState := {
  queue : Queue;
  activeQueue : Queue
}.

(** The two mitt instances of the provider. *)
Inductive Channel := emitter | endEmitter.

(** [InternalEffectShape]: what a subscriber receives. *)
Record InternalEffectShape := {
  shape_payload : option string;
  shape_boardProps : BoardProps
}.

(** One call [em.emit(type, effect)].  [about] is the queue entry the call was
    made for; it is bookkeeping of the model, not delivered to handlers. *)
Record Notification := {
  channel : Channel;
  about : Effect;
  ntype : string;
  envelope : InternalEffectShape
}.

(** The externally visible calls of a handler, in program order. *)
Inductive Action :=
| Publish (n : Notification)
| SetState (s : InteralState)
| SetQueueState (q : QueueState)
| StopRaf
| StartRaf.

(** The provider between two handlers: the props of the latest render, the
    [useState] cell, the [useRefState] cell and the activity flag of the
    animation-frame loop. *)
Record Provider := {
  boardProps : BoardProps;
  state : InteralState;
  qState : QueueState;
  rafActive : bool
}.

(** ** Comparisons on times *)

(** [a > b] *)
Definition Qgtb (a b : Q) : bool := negb (Qle_bool a b).

(** [a >= b] *)
Definition Qgeb (a b : Q) : bool := Qle_bool b a.

(** ** [emit] and [emitAllEffects] *)

Definition emit (em : Channel) (effect : Effect) (bp : BoardProps) : Notification :=
  {| channel := em;
     about := effect;
     ntype := type effect;
     envelope := {| shape_payload := payload effect; shape_boardProps := bp |} |}.

Fixpoint emitAllEffects (em : Channel) (effects : Queue) (bp : BoardProps)
  : list Action :=
  match effects with
  | [] => []
  | effect :: rest => Publish (emit em effect bp) :: emitAllEffects em rest bp
  end.

(** ** Values derived from the props at every render *)

(** [const id = effects && effects.data.id] *)
Definition id_of (bp : BoardProps) : option string :=
  match plugins_effects bp with
  | Some d => Some (data_id d)
  | None => None
  end.

(** [const duration = (effects && effects.data.duration) || 0] *)
Definition duration (bp : BoardProps) : Q :=
  match plugins_effects bp with
  | Some d => data_duration d
  | None => 0
  end.

(** [const bgioStateT = updateStateAfterEffects ? duration : 0] *)
Definition bgioStateT (opts : EffectsOpts) (bp : BoardProps) : Q :=
  if updateStateAfterEffects opts then duration bp else 0.

(** [id === state.prevId] on [string | undefined]. *)
Definition id_eqb (a b : option string) : bool :=
  match a, b with
  | Some x, Some y => String.eqb x y
  | None, None => true
  | _, _ => false
  end.

(** [useState<InteralState>({ prevId: id, startT: 0, bgioProps: boardProps })],
    [useRefState({ queue: [], activeQueue: [] })], [useRafLoop(..., false)]. *)
Definition mount (bp : BoardProps) : Provider :=
  {| boardProps := bp;
     state := {| prevId := id_of bp; startT := 0; bgioProps := bp |};
     qState := {| queue := []; activeQueue := [] |};
     rafActive := false |}.

(** ** The animation-frame callback *)

(** First loop: over [qState.current.activeQueue].  [newActiveQueue], [ended]
    and the log are the loop's variables. *)
Fixpoint activeLoop (bp : BoardProps) (elapsedT : Q) (active : Queue)
  (newActiveQueue : Queue) (ended : bool) (log : list Action)
  : Queue * bool * list Action :=
  match active with
  | [] => (newActiveQueue, ended, log)
  | effect :: rest =>
      if Qgtb (endT effect) elapsedT
      then activeLoop bp elapsedT rest (newActiveQueue ++ [effect]) ended log
      else activeLoop bp elapsedT rest newActiveQueue true
             (log ++ [Publish (emit endEmitter effect bp)])
  end.

(** Second loop: over [qState.current.queue], leaving at the first effect
    whose [t] is in the future.  Returns the final [i]. *)
Fixpoint queueLoop (bp : BoardProps) (elapsedT : Q) (pending : Queue)
  (i : nat) (newActiveQueue : Queue) (log : list Action)
  : nat * Queue * list Action :=
  match pending with
  | [] => (i, newActiveQueue, log)
  | effect :: rest =>
      if Qgtb (t effect) elapsedT
      then (i, newActiveQueue, log)
      else queueLoop bp elapsedT rest (S i) (newActiveQueue ++ [effect])
             (log ++ [Publish (emit emitter effect bp)])
  end.

(** [((performance.now() - state.startT) / 1000) * speed] *)
Definition elapsed (opts : EffectsOpts) (now : Q) (w : Provider) : Q :=
  ((now - startT (state w)) / 1000) * speed opts.

(** The body of the callback once [elapsedT] is known. *)
Definition advance (opts : EffectsOpts) (elapsedT : Q) (w : Provider)
  : Provider * list Action :=
  let bp := boardProps w in
  let '(newActiveQueue, ended, log) :=
    activeLoop bp elapsedT (activeQueue (qState w)) [] false [] in
  let '(i, newActiveQueue, log) :=
    queueLoop bp elapsedT (queue (qState w)) 0 newActiveQueue log in
  let '(st, log) :=
    if Qgeb elapsedT (bgioStateT opts bp)
       && negb (same_props bp (bgioProps (state w)))
    then
      let s := {| prevId := prevId (state w);
                  startT := startT (state w);
                  bgioProps := bp |} in
      (s, log ++ [SetState s])
    else (state w, log) in
  let '(active, log) :=
    if Qgtb elapsedT (duration bp)
    then (false, log ++ [StopRaf])
    else (rafActive w, log) in
  if (0 <? i)%nat || ended
  then
    let updateQueue :=
      {| queue := if (0 <? i)%nat
                  then skipn i (queue (qState w))
                  else queue (qState w);
         activeQueue := newActiveQueue |} in
    ({| boardProps := bp; state := st; qState := updateQueue;
        rafActive := active |},
     log ++ [SetQueueState updateQueue])
  else
    ({| boardProps := bp; state := st; qState := qState w;
        rafActive := active |},
     log).

Definition rafCallback (opts : EffectsOpts) (now : Q) (w : Provider)
  : Provider * list Action :=
  advance opts (elapsed opts now w) w.

(** ** The [useEffect] handler *)

(** The branch taken when the plugin is absent or the batch id is the loaded
    one: only [bgioProps] may move. *)
Definition sameBatch (opts : EffectsOpts) (w : Provider)
  : Provider * list Action :=
  let bp := boardProps w in
  if (negb (updateStateAfterEffects opts) || negb (rafActive w))
     && negb (same_props bp (bgioProps (state w)))
  then
    let update := {| prevId := prevId (state w);
                     startT := startT (state w);
                     bgioProps := bp |} in
    ({| boardProps := bp; state := update; qState := qState w;
        rafActive := rafActive w |},
     [SetState update])
  else (w, []).

(** The rest of the handler: flush, install, restart. *)
Definition swapBatch (now : Q) (effects : Data) (w : Provider)
  : Provider * list Action :=
  let bp := boardProps w in
  let log := emitAllEffects endEmitter (activeQueue (qState w)) bp in
  let q := {| queue := data_queue effects; activeQueue := [] |} in
  let update := {| prevId := Some (data_id effects);
                   startT := now;
                   bgioProps := bgioProps (state w) |} in
  ({| boardProps := bp; state := update; qState := q; rafActive := true |},
   log ++ [SetQueueState q; SetState update; StartRaf]).

(** [now] is the value [performance.now()] returns if the handler reads it. *)
Definition useEffectBody (opts : EffectsOpts) (now : Q) (w : Provider)
  : Provider * list Action :=
  match plugins_effects (boardProps w) with
  | None => sameBatch opts w
  | Some effects =>
      if id_eqb (id_of (boardProps w)) (prevId (state w))
      then sameBatch opts w
      else swapBatch now effects w
  end.

(** ** The provider as a transition system *)

(** A render with new props. *)
Definition render (bp : BoardProps) (w : Provider) : Provider :=
  {| boardProps := bp; state := state w; qState := qState w;
     rafActive := rafActive w |}.

(** A host observation: the provider is rendered with the new props and the
    effect handler runs. *)
Definition observe (opts : EffectsOpts) (bp : BoardProps) (now : Q)
  (w : Provider) : Provider * list Action :=
  useEffectBody opts now (render bp w).

(** An animation frame: the loop calls the callback only while active. *)
Definition tick (opts : EffectsOpts) (now : Q) (w : Provider)
  : Provider * list Action :=
  if rafActive w then rafCallback opts now w else (w, []).

Inductive Input :=
| Render (bp : BoardProps)
| RunEffect (now : Q)
| Tick (now : Q).

Definition step (opts : EffectsOpts) (i : Input) (w : Provider)
  : Provider * list Action :=
  match i with
  | Render bp => (render bp w, [])
  | RunEffect now => useEffectBody opts now w
  | Tick now => tick opts now w
  end.

Fixpoint run (opts : EffectsOpts) (ins : list Input) (w : Provider)
  : Provider * list Action :=
  match ins with
  | [] => (w, [])
  | i :: rest =>
      let '(w1, log1) := step opts i w in
      let '(w2, log2) := run opts rest w1 in
      (w2, log1 ++ log2)
  end.

(** ** Vocabulary of the properties *)

(** [endT <= elapsedT]: the effect is over. *)
Definition ends_by (elapsedT : Q) (effect : Effect) : bool :=
  Qle_bool (endT effect) elapsedT.

(** [t <= elapsedT]: the effect is due. *)
Definition due_by (elapsedT : Q) (effect : Effect) : bool :=
  Qle_bool (t effect) elapsedT.

(** The entries at the front of a queue that are due, up to the first one
    that is not. *)
Fixpoint duePrefix (elapsedT : Q) (pending : Queue) : Queue :=
  match pending with
  | [] => []
  | effect :: rest =>
      if due_by elapsedT effect then effect :: duePrefix elapsedT rest else []
  end.

(** A queue in ascending order of [t]. *)
Definition ascending (q : Queue) : Prop :=
  Sorted (fun a b => (t a <= t b)%Q) q.

(** The notifications of a log, in order. *)
Fixpoint published (log : list Action) : list Notification :=
  match log with
  | [] => []
  | Publish n :: rest => n :: published rest
  | _ :: rest => published rest
  end.

Definition on_channel (c : Channel) (n : Notification) : bool :=
  match c, channel n with
  | emitter, emitter => true
  | endEmitter, endEmitter => true
  | _, _ => false
  end.

(** The effects that were notified as started, respectively ended. *)
Definition starts_of (log : list Action) : Queue :=
  map about (filter (on_channel emitter) (published log)).

Definition ends_of (log : list Action) : Queue :=
  map about (filter (on_channel endEmitter) (published log)).

(** The calls of [setQueueState] in a log. *)
Fixpoint queueStates (log : list Action) : list QueueState :=
  match log with
  | [] => []
  | SetQueueState q :: rest => q :: queueStates rest
  | _ :: rest => queueStates rest
  end.

(** The handler would take the batch-swap branch. *)
Definition isSwap (w : Provider) : bool :=
  match plugins_effects (boardProps w) with
  | None => false
  | Some _ => negb (id_eqb (id_of (boardProps w)) (prevId (state w)))
  end.

Definition swaps (i : Input) (w : Provider) : bool :=
  match i with
  | RunEffect _ => isSwap w
  | _ => false
  end.

(** A run cut at the batch swaps.  Each entry pairs a queue as it was
    installed with everything logged from then on, up to and including the
    handler run that replaces it (whose flush is the last thing published for
    the old queue).  [batch] and [log] are the entry under construction. *)
Fixpoint installations (opts : EffectsOpts) (ins : list Input) (w : Provider)
  (batch : Queue) (log : list Action) : list (Queue * list Action) :=
  match ins with
  | [] => [(batch, log)]
  | i :: rest =>
      let '(w1, log1) := step opts i w in
      if swaps i w
      then (batch, log ++ log1)
           :: installations opts rest w1 (queue (qState w1)) []
      else installations opts rest w1 batch (log ++ log1)
  end.

(** An entry is accounted for when the started effects are a prefix of the
    installed queue and the ended ones are among the started ones. *)
Definition accounted (entry : Queue * list Action) : Prop :=
  (exists pend, starts_of (snd entry) ++ pend = fst entry)
  /\ (exists act, Permutation (ends_of (snd entry) ++ act)
                    (starts_of (snd entry))).

(** No input of the sequence replaces the batch. *)
Fixpoint quiet (opts : EffectsOpts) (ins : list Input) (w : Provider) : bool :=
  match ins with
  | [] => true
  | i :: rest =>
      negb (swaps i w) && quiet opts rest (fst (step opts i w))
  end.

(** Every frame of the sequence runs at an elapsed time below the duration of
    the batch in the props it runs under. *)
Fixpoint early (opts : EffectsOpts) (ins : list Input) (w : Provider) : bool :=
  match ins with
  | [] => true
  | i :: rest =>
      match i with
      | Tick now => Qgtb (duration (boardProps w)) (elapsed opts now w)
      | _ => true
      end && early opts rest (fst (step opts i w))
  end.

(** ** A two-effect batch, and props that carry it *)

Definition dmg1 : Effect :=
  {| type := "dmg"; payload := None; t := 0; endT := 1 |}.

Definition dmg2 : Effect :=
  {| type := "dmg"; payload := None; t := 1 # 2; endT := 3 # 2 |}.

Definition b1 : Data :=
  {| data_id := "b1"; data_queue := [dmg1; dmg2]; data_duration := 3 # 2 |}.

Definition props0 : BoardProps :=
  {| props_ref := 0; plugins_effects := None |}.

Definition props1 : BoardProps :=
  {| props_ref := 1; plugins_effects := Some b1 |}.

(** A batch made of one zero-duration effect. *)
Definition flash : Effect :=
  {| type := "flash"; payload := None; t := 0; endT := 0 |}.

Definition propsFlash : BoardProps :=
  {| props_ref := 30;
     plugins_effects :=
       Some {| data_id := "flash"; data_queue := [flash];
               data_duration := 0 |} |}.

Definition flashing : Provider :=
  fst (useEffectBody defaultOpts 0 (render propsFlash (mount props0))).

(** The provider once [b1] has been delivered at time 0 to a provider
    mounted without the plugin. *)
Definition playing : Provider :=
  fst (useEffectBody defaultOpts 0 (render props1 (mount props0))).

(** The same provider configured to hold the board state back. *)
Definition deferOpts : EffectsOpts :=
  {| speed := 1; updateStateAfterEffects := true |}.

Definition deferring : Provider :=
  fst (useEffectBody deferOpts 0 (render props1 (mount props0))).

(** New props for the same batch, as a re-render with another board state
    delivers them. *)
Definition props1' : BoardProps :=
  {| props_ref := 2; plugins_effects := Some b1 |}.

(** A batch that lasts two seconds, the props that deliver it and a later
    snapshot for the same batch. *)
Definition slow : Data :=
  {| data_id := "slow";
     data_queue := [{| type := "move"; payload := Some "a1"%string;
                       t := 0; endT := 2 |}];
     data_duration := 2 |}.

Definition propsSlow : BoardProps :=
  {| props_ref := 10; plugins_effects := Some slow |}.

Definition propsSlow' : BoardProps :=
  {| props_ref := 11; plugins_effects := Some slow |}.

Definition deferringSlow : Provider :=
  fst (useEffectBody deferOpts 0 (render propsSlow (mount props0))).

(** A batch whose only effect outlasts the batch's [duration]. *)
Definition overrun : Data :=
  {| data_id := "overrun";
     data_queue := [{| type := "fade"; payload := None; t := 0; endT := 3 |}];
     data_duration := 1 |}.

Definition propsOverrun : BoardProps :=
  {| props_ref := 20; plugins_effects := Some overrun |}.

Definition overrunning : Provider :=
  fst (rafCallback defaultOpts 0
         (fst (useEffectBody defaultOpts 0
                 (render propsOverrun (mount props0))))).

(** A run that plays [b1] and replaces it by [slow] while its second effect
    is still active. *)
Definition replaced : list Input :=
  [Render props1; RunEffect 0; Tick 0; Tick 500; Tick 1000;
   Render propsSlow; RunEffect 1200; Tick 1200].

(** [b1] delivered at time [T0] to a provider mounted without the plugin. *)
Definition delivered (T0 : Q) : Provider :=
  fst (observe defaultOpts props1 T0 (mount props0)).



(** A new snapshot for [slow] rendered and observed one second into the batch,
    followed by frames before the two seconds are over. *)
Definition snapshotAtOne : list Input :=
  [Render propsSlow'; RunEffect 1000; Tick 1000; Tick 1500; Tick 1999].

(** Inputs that do not replace the batch [overrun]. *)
Definition idling : list Input :=
  [Tick 1200; Render props1'; Render propsOverrun; RunEffect 1300; Tick 5000].

(** ** The frame in closed form *)

(** The queues a frame leaves behind. *)
Definition nextQueueState (elapsedT : Q) (w : Provider) : QueueState :=
  {| queue :=
       skipn (length (duePrefix elapsedT (queue (qState w)))) (queue (qState w));
     activeQueue :=
       filter (fun x => negb (ends_by elapsedT x)) (activeQueue (qState w))
       ++ duePrefix elapsedT (queue (qState w)) |}.

(** The frame moves [bgioProps] to the latest props. *)
Definition gateOpens (opts : EffectsOpts) (elapsedT : Q) (w : Provider) : bool :=
  Qgeb elapsedT (bgioStateT opts (boardProps w))
  && negb (same_props (boardProps w) (bgioProps (state w))).

Definition exposeProps (w : Provider) : InteralState :=
  {| prevId := prevId (state w);
     startT := startT (state w);
     bgioProps := boardProps w |}.

(** Something started or ended in the frame. *)
Definition busy (elapsedT : Q) (w : Provider) : bool :=
  (0 <? length (duePrefix elapsedT (queue (qState w))))%nat
  || existsb (ends_by elapsedT) (activeQueue (qState w)).

(** ** Vocabulary of the run-level properties *)

(** The calls of [setState] in a log. *)
Fixpoint setStates (log : list Action) : list InteralState :=
  match log with
  | [] => []
  | SetState s :: rest => s :: setStates rest
  | _ :: rest => setStates rest
  end.

(** The props delivered by the renders of a run. *)
Fixpoint rendered (ins : list Input) : list BoardProps :=
  match ins with
  | [] => []
  | Render bp :: rest => bp :: rendered rest
  | _ :: rest => rendered rest
  end.

(** A render that brings no batch other than the one of [bp]. *)
Definition keepsId (bp : BoardProps) (i : Input) : Prop :=
  match i with
  | Render bp' => plugins_effects bp' = None \/ id_of bp' = id_of bp
  | _ => True
  end.

(** Props whose batch, if any, is in ascending order of [t]. *)
Definition ascendingProps (bp : BoardProps) : Prop :=
  forall d, plugins_effects bp = Some d -> ascending (data_queue d).

Definition ascendingInput (i : Input) : Prop :=
  match i with
  | Render bp => ascendingProps bp
  | _ => True
  end.

(** The options with a given [speed]. *)
Definition withSpeed (s : Q) (u : bool) : EffectsOpts :=
  {| speed := s; updateStateAfterEffects := u |}.

(** Inputs for a provider mounted with [props1]: frames, handler runs and a
    re-render for the same batch. *)
Definition sameBatchInputs : list Input :=
  [RunEffect 0; Tick 0; Render props1'; RunEffect 10; Tick 500; Tick 2000].

(** The calls of [startRaf] ([true]) and [stopRaf] ([false]) in a log. *)
Fixpoint loopCalls (log : list Action) : list bool :=
  match log with
  | [] => []
  | StartRaf :: rest => true :: loopCalls rest
  | StopRaf :: rest => false :: loopCalls rest
  | _ :: rest => loopCalls rest
  end.

(** An installation whose effects have all been ended. *)
Definition settled (entry : Queue * list Action) : Prop :=
  Permutation (ends_of (snd entry)) (starts_of (snd entry)).

(** Props that bring a second batch, [b2]. *)
Definition props2 : BoardProps :=
  {| props_ref := 3;
     plugins_effects :=
       Some {| data_id := "b2"; data_queue := [dmg1]; data_duration := 1 |} |}.

(** Props without the effects plugin, and the provider that holds [slow],
    loaded at time 0 with [updateStateAfterEffects], once those props have
    been rendered and observed one second into the batch. *)
Definition propsBare : BoardProps :=
  {| props_ref := 12; plugins_effects := None |}.

Definition bareAtOne : Provider :=
  fst (run deferOpts [Render propsBare; RunEffect 1000] deferringSlow).

(** ** Time comparisons *)

Lemma Qgtb_true (a b : Q) : Qgtb a b = true <-> (b < a)%Q.
Proof.
  unfold Qgtb. rewrite negb_true_iff, <- not_true_iff_false, Qle_bool_iff.
  split; [apply Qnot_le_lt | apply Qlt_not_le].
Qed.

Lemma Qgeb_true (a b : Q) : Qgeb a b = true <-> (b <= a)%Q.
Proof. apply Qle_bool_iff. Qed.

Lemma ends_by_iff (e : Q) (x : Effect) : ends_by e x = true <-> (endT x <= e)%Q.
Proof. apply Qle_bool_iff. Qed.

Lemma due_by_iff (e : Q) (x : Effect) : due_by e x = true <-> (t x <= e)%Q.
Proof. apply Qle_bool_iff. Qed.

Lemma Qgtb_endT (e : Q) (x : Effect) : Qgtb (endT x) e = negb (ends_by e x).
Proof. reflexivity. Qed.

Lemma Qgtb_t (e : Q) (x : Effect) : Qgtb (t x) e = negb (due_by e x).
Proof. reflexivity. Qed.

Lemma Qle_bool_Qeq (a b b' : Q) : (b == b')%Q -> Qle_bool a b = Qle_bool a b'.
Proof. intros H. rewrite H. reflexivity. Qed.

Lemma Qle_bool_Qeq_l (a a' b : Q) : (a == a')%Q -> Qle_bool a b = Qle_bool a' b.
Proof. intros H. rewrite H. reflexivity. Qed.

(** ** Logs *)

Lemma published_app (l1 l2 : list Action) :
  published (l1 ++ l2) = published l1 ++ published l2.
Proof.
  induction l1 as [|a l1 IH]; simpl; [reflexivity|].
  destruct a; simpl; rewrite IH; reflexivity.
Qed.

Lemma published_emitAll (em : Channel) (q : Queue) (bp : BoardProps) :
  published (emitAllEffects em q bp) = map (fun x => emit em x bp) q.
Proof. induction q as [|x q IH]; simpl; [|rewrite IH]; reflexivity. Qed.

Lemma queueStates_app (l1 l2 : list Action) :
  queueStates (l1 ++ l2) = queueStates l1 ++ queueStates l2.
Proof.
  induction l1 as [|a l1 IH]; simpl; [reflexivity|].
  destruct a; simpl; rewrite IH; reflexivity.
Qed.

Lemma queueStates_emitAll (em : Channel) (q : Queue) (bp : BoardProps) :
  queueStates (emitAllEffects em q bp) = [].
Proof. induction q as [|x q IH]; simpl; [reflexivity | exact IH]. Qed.

Lemma starts_of_app (l1 l2 : list Action) :
  starts_of (l1 ++ l2) = starts_of l1 ++ starts_of l2.
Proof.
  unfold starts_of. rewrite published_app, filter_app, map_app. reflexivity.
Qed.

Lemma ends_of_app (l1 l2 : list Action) :
  ends_of (l1 ++ l2) = ends_of l1 ++ ends_of l2.
Proof.
  unfold ends_of. rewrite published_app, filter_app, map_app. reflexivity.
Qed.

Lemma starts_of_emitAll (em : Channel) (q : Queue) (bp : BoardProps) :
  starts_of (emitAllEffects em q bp)
  = match em with emitter => q | endEmitter => [] end.
Proof.
  unfold starts_of. rewrite published_emitAll.
  induction q as [|x q IH]; destruct em; simpl in *; congruence.
Qed.

Lemma ends_of_emitAll (em : Channel) (q : Queue) (bp : BoardProps) :
  ends_of (emitAllEffects em q bp)
  = match em with emitter => [] | endEmitter => q end.
Proof.
  unfold ends_of. rewrite published_emitAll.
  induction q as [|x q IH]; destruct em; simpl in *; congruence.
Qed.

(** ** The two loops in closed form *)

Lemma activeLoop_spec (bp : BoardProps) (e : Q) (active acc : Queue)
  (ended : bool) (log : list Action) :
  activeLoop bp e active acc ended log
  = (acc ++ filter (fun x => negb (ends_by e x)) active,
     ended || existsb (ends_by e) active,
     log ++ emitAllEffects endEmitter (filter (ends_by e) active) bp).
Proof.
  revert acc ended log.
  induction active as [|x rest IH]; intros acc ended log; simpl.
  - rewrite !app_nil_r, orb_false_r. reflexivity.
  - rewrite Qgtb_endT. destruct (ends_by e x); simpl; rewrite IH.
    + rewrite orb_true_r, <- app_assoc. reflexivity.
    + rewrite <- app_assoc. reflexivity.
Qed.

Lemma queueLoop_spec (bp : BoardProps) (e : Q) (pending : Queue) (i : nat)
  (acc : Queue) (log : list Action) :
  queueLoop bp e pending i acc log
  = ((i + length (duePrefix e pending))%nat,
     acc ++ duePrefix e pending,
     log ++ emitAllEffects emitter (duePrefix e pending) bp).
Proof.
  revert i acc log.
  induction pending as [|x rest IH]; intros i acc log; simpl.
  - rewrite !app_nil_r, Nat.add_0_r. reflexivity.
  - rewrite Qgtb_t. destruct (due_by e x); simpl.
    + rewrite IH, <- !app_assoc, Nat.add_succ_r. reflexivity.
    + rewrite !app_nil_r, Nat.add_0_r. reflexivity.
Qed.

Lemma duePrefix_firstn (e : Q) (q : Queue) :
  duePrefix e q = firstn (length (duePrefix e q)) q.
Proof.
  induction q as [|x q IH]; simpl; [reflexivity|].
  destruct (due_by e x); simpl; [f_equal; exact IH | reflexivity].
Qed.

Lemma duePrefix_skipn (e : Q) (q : Queue) :
  duePrefix e q ++ skipn (length (duePrefix e q)) q = q.
Proof.
  rewrite (duePrefix_firstn e q) at 1. apply firstn_skipn.
Qed.

Lemma duePrefix_stops (e : Q) (q : Queue) (x : Effect) :
  nth_error q (length (duePrefix e q)) = Some x -> (e < t x)%Q.
Proof.
  induction q as [|y q IH]; simpl; [discriminate|].
  destruct (due_by e y) eqn:D; simpl; [exact IH|].
  intros [= <-]. apply Qgtb_true. rewrite Qgtb_t, D. reflexivity.
Qed.

Lemma filter_none (A : Type) (f : A -> bool) (l : list A) :
  existsb f l = false -> filter f l = [] /\ filter (fun x => negb (f x)) l = l.
Proof.
  induction l as [|x l IH]; simpl; [auto|].
  destruct (f x); simpl; [discriminate|].
  intros H. destruct (IH H) as [-> ->]. auto.
Qed.

Lemma filter_some (A : Type) (f : A -> bool) (l : list A) :
  existsb f l = true -> filter f l <> [].
Proof.
  induction l as [|x l IH]; simpl; [discriminate|].
  destruct (f x); simpl; [discriminate | exact IH].
Qed.

(** On an ascending queue the due prefix is everything that is due, and what
    is left is everything that is not. *)
Lemma ascending_tail_late (e : Q) (x : Effect) (q : Queue) :
  ascending (x :: q) -> due_by e x = false ->
  filter (due_by e) q = [] /\ filter (fun y => negb (due_by e y)) q = q.
Proof.
  intros S D. apply filter_none.
  apply Sorted_StronglySorted in S.
  2:{ intros a b c; apply Qle_trans. }
  inversion S as [|? ? _ F]; subst.
  rewrite <- not_true_iff_false, existsb_exists. intros (y & Iy & Dy).
  rewrite Forall_forall in F. specialize (F y Iy).
  apply due_by_iff in Dy.
  assert (due_by e x = true) by (apply due_by_iff; eapply Qle_trans; eauto).
  congruence.
Qed.

Lemma ascending_duePrefix (e : Q) (q : Queue) :
  ascending q ->
  duePrefix e q = filter (due_by e) q
  /\ skipn (length (duePrefix e q)) q = filter (fun x => negb (due_by e x)) q.
Proof.
  induction q as [|x q IH]; intros S; simpl; [auto|].
  destruct (due_by e x) eqn:D; simpl.
  - assert (S' : ascending q) by (inversion S; assumption).
    destruct (IH S') as [-> ->]. auto.
  - destruct (ascending_tail_late e x q S D) as [-> ->]. auto.
Qed.

(** ** The frame in closed form *)

Section Frame.

Variables (opts : EffectsOpts) (e : Q) (w : Provider).

Lemma advance_eq :
  advance opts e w
  = ({| boardProps := boardProps w;
        state := if gateOpens opts e w then exposeProps w else state w;
        qState := if busy e w then nextQueueState e w else qState w;
        rafActive := if Qgtb e (duration (boardProps w)) then false
                     else rafActive w |},
     emitAllEffects endEmitter
       (filter (ends_by e) (activeQueue (qState w))) (boardProps w)
     ++ emitAllEffects emitter (duePrefix e (queue (qState w))) (boardProps w)
     ++ (if gateOpens opts e w then [SetState (exposeProps w)] else [])
     ++ (if Qgtb e (duration (boardProps w)) then [StopRaf] else [])
     ++ (if busy e w then [SetQueueState (nextQueueState e w)] else [])).
Proof.
  unfold advance. rewrite activeLoop_spec, queueLoop_spec. simpl.
  fold (gateOpens opts e w). fold (exposeProps w). unfold busy, nextQueueState.
  destruct (gateOpens opts e w), (Qgtb e (duration (boardProps w)));
    destruct (length (duePrefix e (queue (qState w)))) eqn:L; simpl;
    destruct (existsb (ends_by e) (activeQueue (qState w))); simpl;
    rewrite <- ?app_assoc, ?app_nil_r; simpl; reflexivity.
Qed.

(** The three tests of the frame that only add bookkeeping calls to the
    log. *)
Ltac frame_cases :=
  destruct (gateOpens opts e w), (Qgtb e (duration (boardProps w))),
    (busy e w); simpl; rewrite ?app_nil_r; reflexivity.

Lemma idle_nextQueueState :
  busy e w = false -> nextQueueState e w = qState w.
Proof.
  unfold busy, nextQueueState. intros H.
  apply orb_false_iff in H. destruct H as [H1 H2].
  destruct (filter_none _ _ _ H2) as [_ ->].
  destruct (duePrefix e (queue (qState w))); [|discriminate].
  simpl. rewrite app_nil_r. destruct (qState w); reflexivity.
Qed.

Lemma advance_qState :
  qState (fst (advance opts e w)) = nextQueueState e w.
Proof.
  rewrite advance_eq. simpl. destruct (busy e w) eqn:B; [reflexivity|].
  symmetry. apply idle_nextQueueState, B.
Qed.

Lemma advance_published :
  published (snd (advance opts e w))
  = map (fun x => emit endEmitter x (boardProps w))
      (filter (ends_by e) (activeQueue (qState w)))
    ++ map (fun x => emit emitter x (boardProps w))
         (duePrefix e (queue (qState w))).
Proof.
  rewrite advance_eq. simpl. rewrite !published_app, !published_emitAll.
  frame_cases.
Qed.

Lemma advance_starts :
  starts_of (snd (advance opts e w)) = duePrefix e (queue (qState w)).
Proof.
  rewrite advance_eq. simpl. rewrite !starts_of_app, !starts_of_emitAll.
  frame_cases.
Qed.

Lemma advance_ends :
  ends_of (snd (advance opts e w))
  = filter (ends_by e) (activeQueue (qState w)).
Proof.
  rewrite advance_eq. simpl. rewrite !ends_of_app, !ends_of_emitAll.
  frame_cases.
Qed.

Lemma advance_queueStates :
  queueStates (snd (advance opts e w))
  = if busy e w then [nextQueueState e w] else [].
Proof.
  rewrite advance_eq. simpl. rewrite !queueStates_app, !queueStates_emitAll.
  frame_cases.
Qed.

Lemma busy_iff :
  busy e w = true
  <-> duePrefix e (queue (qState w)) <> []
      \/ filter (ends_by e) (activeQueue (qState w)) <> [].
Proof.
  unfold busy. rewrite orb_true_iff. split.
  - intros [H|H].
    + left. destruct (duePrefix e (queue (qState w))); [discriminate H|].
      discriminate.
    + right. apply filter_some, H.
  - intros [H|H].
    + left. destruct (duePrefix e (queue (qState w))); [congruence|].
      reflexivity.
    + right. destruct (existsb (ends_by e) (activeQueue (qState w))) eqn:E;
        [reflexivity|].
      destruct (filter_none _ _ _ E) as [F _]. congruence.
Qed.

End Frame.

(** In a list made of end notifications followed by start notifications,
    every end notification sits before every start notification. *)
Lemma ends_sit_first (A B : list Notification) :
  Forall (fun n => channel n = endEmitter) A ->
  Forall (fun n => channel n = emitter) B ->
  forall i j n m,
    nth_error (A ++ B) i = Some n -> channel n = endEmitter ->
    nth_error (A ++ B) j = Some m -> channel m = emitter ->
    (i < j)%nat.
Proof.
  intros FA FB i j n m Hi Cn Hj Cm.
  rewrite Forall_forall in FA, FB.
  assert (Li : (i < length A)%nat).
  { destruct (Nat.lt_ge_cases i (length A)) as [L|L]; [exact L|].
    rewrite nth_error_app2 in Hi by exact L.
    apply nth_error_In, FB in Hi. congruence. }
  assert (Lj : (length A <= j)%nat).
  { destruct (Nat.lt_ge_cases j (length A)) as [L|L]; [|exact L].
    rewrite nth_error_app1 in Hj by exact L.
    apply nth_error_In, FA in Hj. congruence. }
  lia.
Qed.

Lemma emit_channel (em : Channel) (bp : BoardProps) (q : Queue) :
  Forall (fun n => channel n = em) (map (fun x => emit em x bp) q).
Proof.
  apply Forall_forall. intros n H. apply in_map_iff in H.
  destruct H as (x & <- & _). reflexivity.
Qed.

(** ** The per-frame claims *)

(** C1.  A frame at elapsed time [e] over an ascending pending queue ends
    exactly the active effects with [endT <= e], each once on the end
    channel, and keeps the others; it starts exactly the pending effects with
    [t <= e], each once on the start channel, and moves them to the active
    queue; the scan covers a prefix of the pending queue that stops at the
    first effect with [t > e], and the pending queue loses that prefix. *)
Theorem frame_partitions_queues (opts : EffectsOpts) (now : Q) (w : Provider) :
  ascending (queue (qState w)) ->
  let e := elapsed opts now w in
  let bp := boardProps w in
  let active := activeQueue (qState w) in
  let pending := queue (qState w) in
  let r := rafCallback opts now w in
  published (snd r)
  = map (fun x => emit endEmitter x bp) (filter (ends_by e) active)
    ++ map (fun x => emit emitter x bp) (filter (due_by e) pending)
  /\ (forall x, In x (ends_of (snd r)) <-> In x active /\ (endT x <= e)%Q)
  /\ (forall x, In x (starts_of (snd r)) <-> In x pending /\ (t x <= e)%Q)
  /\ activeQueue (qState (fst r))
     = filter (fun x => negb (ends_by e x)) active ++ filter (due_by e) pending
  /\ queue (qState (fst r)) = filter (fun x => negb (due_by e x)) pending
  /\ exists n : nat,
       filter (due_by e) pending = firstn n pending
       /\ queue (qState (fst r)) = skipn n pending
       /\ (forall x, nth_error pending n = Some x -> (e < t x)%Q).
Proof.
  intros S e bp active pending r.
  destruct (ascending_duePrefix e pending S) as [P K].
  subst r. unfold rafCallback. fold e.
  rewrite advance_published, advance_ends, advance_starts, advance_qState.
  fold bp active pending. unfold nextQueueState. simpl.
  fold active pending. rewrite K, P.
  repeat split.
  - apply filter_In in H. tauto.
  - apply filter_In in H. apply ends_by_iff, H.
  - intros [H1 H2]. apply filter_In. split; [exact H1 | apply ends_by_iff, H2].
  - apply filter_In in H. tauto.
  - apply filter_In in H. apply due_by_iff, H.
  - intros [H1 H2]. apply filter_In. split; [exact H1 | apply due_by_iff, H2].
  - exists (length (duePrefix e pending)). repeat split.
    + rewrite <- P. apply duePrefix_firstn.
    + symmetry. exact K.
    + apply duePrefix_stops.
Qed.

Lemma frame_partitions_queues_witness :
  ascending (queue (qState playing))
  /\ queue (qState (fst (rafCallback defaultOpts 600 playing))) = [].
Proof.
  assert (S : ascending (queue (qState playing))).
  { repeat constructor. vm_compute. discriminate. }
  split; [exact S|].
  pose proof (frame_partitions_queues defaultOpts 600 playing S) as H.
  cbv zeta in H. destruct H as (_ & _ & _ & _ & H & _).
  rewrite H. reflexivity.
Defined.

(** C4.  Within a frame every end notification is published before every
    start notification.  The end notifications come from the active queue as
    it was when the frame began, so an effect started in the frame, whatever
    its [endT], is not ended in it: it is appended to the rebuilt active
    queue, and a later frame whose elapsed time has reached its [endT] ends
    it. *)
Theorem ends_before_starts (opts : EffectsOpts) (now : Q) (w : Provider) :
  let e := elapsed opts now w in
  let r := rafCallback opts now w in
  let started := duePrefix e (queue (qState w)) in
  (forall i j n m,
      nth_error (published (snd r)) i = Some n -> channel n = endEmitter ->
      nth_error (published (snd r)) j = Some m -> channel m = emitter ->
      (i < j)%nat)
  /\ starts_of (snd r) = started
  /\ ends_of (snd r) = filter (ends_by e) (activeQueue (qState w))
  /\ activeQueue (qState (fst r))
     = filter (fun x => negb (ends_by e x)) (activeQueue (qState w)) ++ started
  /\ (forall now' x,
        In x started ->
        ends_by (elapsed opts now' (fst r)) x = true ->
        In x (ends_of (snd (rafCallback opts now' (fst r))))).
Proof.
  intros e r started. subst r. unfold rafCallback. fold e.
  rewrite advance_published, advance_ends, advance_starts, advance_qState.
  fold started. repeat split.
  - apply ends_sit_first; apply emit_channel.
  - intros now' x I E. rewrite advance_ends, advance_qState. simpl.
    apply filter_In. split; [|exact E].
    apply in_or_app. right. exact I.
Qed.

Lemma ends_before_starts_witness :
  starts_of (snd (rafCallback defaultOpts 0 flashing)) = [flash]
  /\ ends_of (snd (rafCallback defaultOpts 0 flashing)) = []
  /\ activeQueue (qState (fst (rafCallback defaultOpts 0 flashing))) = [flash]
  /\ In flash
       (ends_of (snd (rafCallback defaultOpts 16
                        (fst (rafCallback defaultOpts 0 flashing))))).
Proof.
  pose proof (ends_before_starts defaultOpts 0 flashing) as H.
  cbv zeta in H. destruct H as (_ & H1 & H2 & H3 & H4).
  rewrite H1, H2, H3. repeat split.
  apply (H4 16 flash); [left; reflexivity | reflexivity].
Defined.

(** C8.  A frame calls [setQueueState] exactly when it started or ended at
    least one effect; then it calls it once, with the queues it leaves
    behind.  A frame that starts and ends nothing leaves the queue state
    untouched and unpublished. *)
Theorem queue_published_iff_busy (opts : EffectsOpts) (now : Q) (w : Provider) :
  let r := rafCallback opts now w in
  (queueStates (snd r) <> []
   <-> starts_of (snd r) <> [] \/ ends_of (snd r) <> [])
  /\ (queueStates (snd r) = [] \/ queueStates (snd r) = [qState (fst r)])
  /\ (queueStates (snd r) = [] -> qState (fst r) = qState w).
Proof.
  intros r. subst r. unfold rafCallback.
  set (e := elapsed opts now w).
  rewrite advance_queueStates, advance_starts, advance_ends, advance_qState.
  rewrite <- busy_iff.
  destruct (busy e w) eqn:B; repeat split; auto; try discriminate;
    try congruence.
  intros _. apply idle_nextQueueState, B.
Qed.

(** ** The effect handler *)

Lemma id_eqb_eq (a b : option string) : id_eqb a b = true <-> a = b.
Proof.
  destruct a as [x|], b as [y|]; simpl; try (split; congruence).
  rewrite String.eqb_eq. split; congruence.
Qed.

Lemma emitAll_map (em : Channel) (q : Queue) (bp : BoardProps) :
  emitAllEffects em q bp = map (fun x => Publish (emit em x bp)) q.
Proof. induction q as [|x q IH]; simpl; [|rewrite IH]; reflexivity. Qed.

Lemma isSwap_true (w : Provider) :
  isSwap w = true
  <-> exists d, plugins_effects (boardProps w) = Some d
                /\ Some (data_id d) <> prevId (state w).
Proof.
  unfold isSwap, id_of. destruct (plugins_effects (boardProps w)) as [d|].
  - rewrite negb_true_iff, <- not_true_iff_false, id_eqb_eq. split.
    + intros H. exists d. auto.
    + intros (d' & [= <-] & H). exact H.
  - split; [discriminate | intros (d & H & _); discriminate].
Qed.

Lemma useEffectBody_swap (opts : EffectsOpts) (now : Q) (w : Provider) (d : Data) :
  plugins_effects (boardProps w) = Some d -> isSwap w = true ->
  useEffectBody opts now w = swapBatch now d w.
Proof.
  unfold useEffectBody, isSwap. intros ->. rewrite negb_true_iff.
  intros ->. reflexivity.
Qed.

Lemma useEffectBody_same (opts : EffectsOpts) (now : Q) (w : Provider) :
  isSwap w = false -> useEffectBody opts now w = sameBatch opts w.
Proof.
  unfold useEffectBody, isSwap.
  destruct (plugins_effects (boardProps w)); [|reflexivity].
  rewrite negb_false_iff. intros ->. reflexivity.
Qed.

Lemma sameBatch_frame (opts : EffectsOpts) (w : Provider) :
  let r := sameBatch opts w in
  boardProps (fst r) = boardProps w
  /\ qState (fst r) = qState w
  /\ startT (state (fst r)) = startT (state w)
  /\ prevId (state (fst r)) = prevId (state w)
  /\ rafActive (fst r) = rafActive w
  /\ published (snd r) = []
  /\ queueStates (snd r) = []
  /\ ~ In StartRaf (snd r)
  /\ (bgioProps (state (fst r)) = bgioProps (state w)
      \/ bgioProps (state (fst r)) = boardProps w).
Proof.
  unfold sameBatch.
  destruct ((negb (updateStateAfterEffects opts) || negb (rafActive w))
            && negb (same_props (boardProps w) (bgioProps (state w))));
    simpl; repeat split; auto; intros [H|[]]; discriminate H.
Qed.

(** C2.  When the observed props carry a batch whose id is not [prevId], the
    handler first publishes, on the end emitter and on no other, one
    notification for every effect of the active queue it finds, in order,
    each keyed by the effect's type and carrying its payload with the newly
    observed props; only then does it install
    [{ queue: batch.queue, activeQueue: [] }], store the new id with [startT]
    set to the current time, and start the animation-frame loop. *)
Theorem swap_flushes_then_installs (opts : EffectsOpts) (bp : BoardProps)
  (now : Q) (w : Provider) (d : Data) :
  plugins_effects bp = Some d ->
  Some (data_id d) <> prevId (state w) ->
  let installed := {| queue := data_queue d; activeQueue := [] |} in
  let update := {| prevId := Some (data_id d);
                   startT := now;
                   bgioProps := bgioProps (state w) |} in
  let r := observe opts bp now w in
  r = ({| boardProps := bp; state := update; qState := installed;
          rafActive := true |},
       map (fun x =>
              Publish {| channel := endEmitter;
                         about := x;
                         ntype := type x;
                         envelope := {| shape_payload := payload x;
                                        shape_boardProps := bp |} |})
           (activeQueue (qState w))
       ++ [SetQueueState installed; SetState update; StartRaf])
  /\ ends_of (snd r) = activeQueue (qState w)
  /\ starts_of (snd r) = []
  /\ Forall (fun n => channel n = endEmitter
                      /\ shape_boardProps (envelope n) = bp
                      /\ shape_payload (envelope n) = payload (about n)
                      /\ ntype n = type (about n))
       (published (snd r)).
Proof.
  intros E N installed update r.
  assert (S : isSwap (render bp w) = true).
  { apply isSwap_true. exists d. auto. }
  split; [|split; [|split]].
  - subst r. unfold observe.
    rewrite (useEffectBody_swap opts now (render bp w) d E S).
    unfold swapBatch. simpl. rewrite emitAll_map. reflexivity.
  - subst r. unfold observe.
    rewrite (useEffectBody_swap opts now (render bp w) d E S).
    unfold swapBatch. simpl. rewrite ends_of_app, ends_of_emitAll.
    unfold ends_of. simpl. apply app_nil_r.
  - subst r. unfold observe.
    rewrite (useEffectBody_swap opts now (render bp w) d E S).
    unfold swapBatch. simpl. rewrite starts_of_app, starts_of_emitAll.
    reflexivity.
  - subst r. unfold observe.
    rewrite (useEffectBody_swap opts now (render bp w) d E S).
    unfold swapBatch. simpl.
    rewrite published_app, published_emitAll. simpl. rewrite app_nil_r.
    apply Forall_forall. intros n H. apply in_map_iff in H.
    destruct H as (x & <- & _). simpl. auto.
Qed.

Lemma swap_flushes_then_installs_witness :
  published
    (snd (observe defaultOpts props2 700
            (fst (rafCallback defaultOpts 600 playing))))
  = [ {| channel := endEmitter; about := dmg1; ntype := "dmg";
         envelope := {| shape_payload := None;
                        shape_boardProps := props2 |} |};
      {| channel := endEmitter; about := dmg2; ntype := "dmg";
         envelope := {| shape_payload := None;
                        shape_boardProps := props2 |} |} ]
  /\ ends_of
       (snd (observe defaultOpts props2 700
               (fst (rafCallback defaultOpts 600 playing))))
     = [dmg1; dmg2].
Proof.
  assert (N : Some (data_id {| data_id := "b2"; data_queue := [dmg1];
                               data_duration := 1 |})
              <> prevId (state (fst (rafCallback defaultOpts 600 playing))))
    by discriminate.
  pose proof (swap_flushes_then_installs defaultOpts props2 700
                (fst (rafCallback defaultOpts 600 playing)) _ eq_refl N) as H.
  cbv zeta in H. destruct H as (H1 & H2 & _).
  split; [rewrite H1; reflexivity | rewrite H2; reflexivity].
Defined.

(** C7.  When the observed props have no effects plugin, or carry the batch
    id that is already in [prevId], the handler leaves both queues, [startT],
    [prevId] and the animation-frame loop as they are and publishes nothing;
    [bgioProps] either stays or becomes the observed props. *)
Theorem same_batch_keeps_timeline (opts : EffectsOpts) (bp : BoardProps)
  (now : Q) (w : Provider) :
  plugins_effects bp = None \/ id_of bp = prevId (state w) ->
  let r := observe opts bp now w in
  qState (fst r) = qState w
  /\ startT (state (fst r)) = startT (state w)
  /\ prevId (state (fst r)) = prevId (state w)
  /\ rafActive (fst r) = rafActive w
  /\ published (snd r) = []
  /\ queueStates (snd r) = []
  /\ ~ In StartRaf (snd r)
  /\ (bgioProps (state (fst r)) = bgioProps (state w)
      \/ bgioProps (state (fst r)) = bp).
Proof.
  intros H r. subst r. unfold observe.
  rewrite useEffectBody_same.
  - destruct (sameBatch_frame opts (render bp w))
      as (_ & A & B & C & D & E & F & G & I).
    simpl in *. repeat split; assumption.
  - unfold isSwap. simpl. destruct H as [-> | H]; [reflexivity|].
    destruct (plugins_effects bp); [|reflexivity].
    apply negb_false_iff, id_eqb_eq, H.
Qed.

Lemma same_batch_keeps_timeline_witness :
  qState (fst (observe defaultOpts
                 {| props_ref := 5; plugins_effects := Some b1 |} 700
                 (fst (rafCallback defaultOpts 600 playing))))
  = {| queue := []; activeQueue := [dmg1; dmg2] |}.
Proof.
  pose proof (same_batch_keeps_timeline defaultOpts
                {| props_ref := 5; plugins_effects := Some b1 |} 700
                (fst (rafCallback defaultOpts 600 playing))
                (or_intror eq_refl)) as H.
  cbv zeta in H. destruct H as (H & _). rewrite H. reflexivity.
Defined.

(** ** What subscribers receive *)

Lemma in_published (n : Notification) (log : list Action) :
  In (Publish n) log <-> In n (published log).
Proof.
  induction log as [|a log IH]; simpl; [tauto|].
  destruct a; simpl; rewrite <- IH; split;
    try (intros [H|H]; [discriminate H || (injection H as ->; auto) | auto]);
    auto.
  intros [->|H]; auto.
Qed.

Lemma duePrefix_incl (e : Q) (q : Queue) (x : Effect) :
  In x (duePrefix e q) -> In x q.
Proof.
  induction q as [|y q IH]; simpl; [tauto|].
  destruct (due_by e y); simpl; [|tauto].
  intros [H|H]; auto.
Qed.

(** C9.  Whatever a handler publishes, on either emitter, is keyed by the
    effect's [type] and delivers the effect's [payload] together with the
    props of the render the handler belongs to, for an effect taken from one
    of the two queues.  Those props need not be the [bgioProps] handed to the
    board: with [updateStateAfterEffects] the first frame of [b1] publishes
    [props1] while the board still has [props0]. *)
Theorem envelope_carries_latest_props :
  (forall (opts : EffectsOpts) (i : Input) (w : Provider) (n : Notification),
      In (Publish n) (snd (step opts i w)) ->
      envelope n = {| shape_payload := payload (about n);
                      shape_boardProps := boardProps w |}
      /\ ntype n = type (about n)
      /\ (In (about n) (queue (qState w))
          \/ In (about n) (activeQueue (qState w))))
  /\ (exists n : Notification,
        In (Publish n) (snd (step deferOpts (Tick 0) deferring))
        /\ shape_boardProps (envelope n) <> bgioProps (state deferring)
        /\ shape_boardProps (envelope n)
           <> bgioProps (state (fst (step deferOpts (Tick 0) deferring)))).
Proof.
  split.
  - intros opts i w n H. apply in_published in H.
    destruct i as [bp|now|now]; simpl in H.
    + contradiction.
    + destruct (isSwap w) eqn:S.
      * apply isSwap_true in S. destruct S as (d & E & N).
        rewrite (useEffectBody_swap opts now w d E) in H
          by (apply isSwap_true; eauto).
        unfold swapBatch in H. simpl in H.
        rewrite published_app, published_emitAll in H. simpl in H.
        rewrite app_nil_r in H. apply in_map_iff in H.
        destruct H as (x & <- & I). simpl. auto.
      * rewrite (useEffectBody_same opts now w S) in H.
        destruct (sameBatch_frame opts w) as (_ & _ & _ & _ & _ & P & _).
        rewrite P in H. contradiction.
    + unfold tick in H. destruct (rafActive w); [|contradiction].
      unfold rafCallback in H. rewrite advance_published in H.
      apply in_app_or in H. destruct H as [H|H]; apply in_map_iff in H;
        destruct H as (x & <- & I); simpl; repeat split.
      * right. apply filter_In in I. tauto.
      * left. eapply duePrefix_incl, I.
  - exists (emit emitter dmg1 props1). repeat split.
    + left. reflexivity.
    + discriminate.
    + discriminate.
Qed.

Lemma envelope_carries_latest_props_witness :
  envelope (emit endEmitter dmg1 props1')
  = {| shape_payload := None; shape_boardProps := props1' |}.
Proof.
  destruct envelope_carries_latest_props as [H _].
  destruct (H defaultOpts (Tick 1000)
              (render props1' (fst (rafCallback defaultOpts 0 playing)))
              (emit endEmitter dmg1 props1')) as [E _].
  - left. reflexivity.
  - exact E.
Defined.

(** ** The gate on [bgioProps] *)

Lemma early_run_keeps_bgioProps (opts : EffectsOpts) (ins : list Input) :
  updateStateAfterEffects opts = true ->
  forall w, rafActive w = true -> early opts ins w = true ->
  bgioProps (state (fst (run opts ins w))) = bgioProps (state w)
  /\ rafActive (fst (run opts ins w)) = true.
Proof.
  intros U. induction ins as [|i rest IH]; intros w A E; simpl.
  - auto.
  - simpl in E. apply andb_true_iff in E. destruct E as [Ei Er].
    assert (K : bgioProps (state (fst (step opts i w))) = bgioProps (state w)
                /\ rafActive (fst (step opts i w)) = true).
    { destruct i as [bp|now|now]; simpl.
      - auto.
      - unfold useEffectBody, sameBatch. rewrite U, A. simpl.
        destruct (plugins_effects (boardProps w)); [|auto].
        destruct (id_eqb _ _); simpl; auto.
      - unfold tick, rafCallback. rewrite A, advance_eq. simpl.
        unfold gateOpens, bgioStateT, Qgeb. rewrite U.
        unfold Qgtb in Ei |- *. apply negb_true_iff in Ei. rewrite Ei. simpl.
        assert (L : Qle_bool (elapsed opts now w) (duration (boardProps w))
                    = true).
        { apply Qle_bool_iff, Qlt_le_weak, Qgtb_true.
          unfold Qgtb. rewrite Ei. reflexivity. }
        rewrite L. simpl. auto. }
    destruct K as [K1 K2].
    destruct (step opts i w) as [w1 log1] eqn:S1. simpl in *.
    destruct (IH w1 K2 Er) as [I1 I2].
    destruct (run opts rest w1) as [w2 log2]. simpl in *.
    split; congruence.
Qed.

Lemma late_frame_opens_gate (opts : EffectsOpts) (now : Q) (w : Provider) :
  rafActive w = true ->
  same_props (boardProps w) (bgioProps (state w)) = false ->
  (bgioStateT opts (boardProps w) <= elapsed opts now w)%Q ->
  bgioProps (state (fst (tick opts now w))) = boardProps w.
Proof.
  intros A D L. unfold tick, rafCallback. rewrite A, advance_eq. simpl.
  unfold gateOpens. rewrite D. apply Qgeb_true in L. rewrite L. reflexivity.
Qed.

(** C3, as the code has it.  The threshold of the gate is the [duration] read
    from the props of the latest render (0 when they bring no plugin), not
    the one of the batch that was loaded.  With [updateStateAfterEffects]
    set, while the animation-frame loop is running no render, handler run or
    frame at an elapsed time below that [duration] changes the [bgioProps]
    handed to the board, and the loop keeps running; the first frame whose
    elapsed time has reached it hands over the latest props. *)
Theorem deferred_gate (opts : EffectsOpts) :
  updateStateAfterEffects opts = true ->
  (forall (ins : list Input) (w : Provider),
      rafActive w = true -> early opts ins w = true ->
      bgioProps (state (fst (run opts ins w))) = bgioProps (state w)
      /\ rafActive (fst (run opts ins w)) = true)
  /\ (forall (now : Q) (w : Provider),
        rafActive w = true ->
        same_props (boardProps w) (bgioProps (state w)) = false ->
        (duration (boardProps w) <= elapsed opts now w)%Q ->
        bgioProps (state (fst (tick opts now w))) = boardProps w).
Proof.
  intros U. split.
  - intros ins w. apply early_run_keeps_bgioProps, U.
  - intros now w A D L. apply late_frame_opens_gate; try assumption.
    unfold bgioStateT. rewrite U. exact L.
Qed.

(** The scenario of C3: the batch lasts 2 s; a new snapshot is rendered and
    observed at 1 s; frames at 1 s, 1.5 s and 1.999 s leave the board on the
    props it had, and the frame at 2 s hands over the new snapshot. *)
Lemma deferred_gate_witness :
  bgioProps (state (fst (run deferOpts snapshotAtOne deferringSlow))) = props0
  /\ bgioProps
       (state (fst (tick deferOpts 2000
                      (fst (run deferOpts snapshotAtOne deferringSlow)))))
     = propsSlow'.
Proof.
  destruct (deferred_gate deferOpts eq_refl) as [Hold Open].
  split.
  - destruct (Hold snapshotAtOne deferringSlow eq_refl eq_refl) as [H _].
    rewrite H. reflexivity.
  - rewrite (Open 2000 (fst (run deferOpts snapshotAtOne deferringSlow))).
    + reflexivity.
    + reflexivity.
    + reflexivity.
    + vm_compute. discriminate.
Defined.

(** C3, as stated, fails when props without the plugin arrive during
    playback.  The batch [slow] lasts 2 s and is loaded with
    [updateStateAfterEffects]; such props are rendered and observed at 1 s.
    The handler holds them back, but for the frame at 1 s the loop is
    running, [duration] is now 0, so that frame hands the new props to the
    board, one second before the loaded batch is over, and stops the loop. *)
Lemma pluginless_render_opens_gate_early :
  updateStateAfterEffects deferOpts = true
  /\ rafActive bareAtOne = true
  /\ prevId (state bareAtOne) = Some (data_id slow)
  /\ queue (qState deferringSlow) = data_queue slow
  /\ (data_duration slow == 2)%Q
  /\ (elapsed deferOpts 1000 bareAtOne == 1)%Q
  /\ bgioProps (state bareAtOne) = props0
  /\ bgioProps (state (fst (tick deferOpts 1000 bareAtOne))) = propsBare
  /\ propsBare <> props0
  /\ In StopRaf (snd (tick deferOpts 1000 bareAtOne)).
Proof.
  repeat split; try reflexivity.
  - discriminate.
  - right. right. left. reflexivity.
Qed.

(** ** Accounting for notifications over a run *)

Lemma filter_length_perm (P : Effect -> bool) (l l' : Queue) :
  Permutation l l' -> length (filter P l) = length (filter P l').
Proof.
  induction 1 as [|x l l' _ IH|x y l|l l' l'' _ IH1 _ IH2]; simpl.
  - reflexivity.
  - destruct (P x); simpl; congruence.
  - destruct (P x), (P y); reflexivity.
  - congruence.
Qed.

Lemma filter_keep_drop (f : Effect -> bool) (l : Queue) :
  Permutation (filter f l ++ filter (fun x => negb (f x)) l) l.
Proof.
  induction l as [|x l IH]; simpl; [constructor|].
  destruct (f x); simpl.
  - constructor. exact IH.
  - apply Permutation_sym, Permutation_cons_app, Permutation_sym, IH.
Qed.

(** A handler run that does not swap only moves effects along: what it
    starts leaves the front of [queue], and what it ends together with what
    stays active is what was active plus what it started. *)
Lemma step_accounts (opts : EffectsOpts) (i : Input) (w : Provider) :
  swaps i w = false ->
  starts_of (snd (step opts i w)) ++ queue (qState (fst (step opts i w)))
  = queue (qState w)
  /\ Permutation
       (ends_of (snd (step opts i w))
        ++ activeQueue (qState (fst (step opts i w))))
       (activeQueue (qState w) ++ starts_of (snd (step opts i w))).
Proof.
  intros NS.
  assert (Idle : forall r : Provider * list Action,
             qState (fst r) = qState w -> published (snd r) = [] ->
             starts_of (snd r) ++ queue (qState (fst r)) = queue (qState w)
             /\ Permutation (ends_of (snd r) ++ activeQueue (qState (fst r)))
                  (activeQueue (qState w) ++ starts_of (snd r))).
  { intros r Hq Hp. unfold starts_of, ends_of. rewrite Hq, Hp. simpl.
    rewrite app_nil_r. split; [reflexivity | apply Permutation_refl]. }
  destruct i as [bp|now|now]; simpl in NS; unfold step.
  - apply (Idle (render bp w, [])); reflexivity.
  - rewrite (useEffectBody_same opts now w NS).
    destruct (sameBatch_frame opts w) as (_ & A & _ & _ & _ & B & _).
    apply Idle; assumption.
  - unfold tick. destruct (rafActive w); [|apply (Idle (w, [])); reflexivity].
    unfold rafCallback.
    rewrite advance_starts, advance_ends, advance_qState. simpl. split.
    + apply duePrefix_skipn.
    + rewrite app_assoc. apply Permutation_app_tail, filter_keep_drop.
Qed.

Lemma step_swap_accounts (opts : EffectsOpts) (now : Q) (w : Provider) :
  isSwap w = true ->
  starts_of (snd (useEffectBody opts now w)) = []
  /\ ends_of (snd (useEffectBody opts now w)) = activeQueue (qState w)
  /\ activeQueue (qState (fst (useEffectBody opts now w))) = [].
Proof.
  intros S. destruct (proj1 (isSwap_true w) S) as (d & E & _).
  rewrite (useEffectBody_swap opts now w d E S). unfold swapBatch. simpl.
  rewrite starts_of_app, ends_of_app, starts_of_emitAll, ends_of_emitAll.
  unfold starts_of, ends_of. simpl. rewrite app_nil_r. auto.
Qed.

Lemma installations_accounted (opts : EffectsOpts) (ins : list Input) :
  forall (w : Provider) (batch : Queue) (log : list Action),
    starts_of log ++ queue (qState w) = batch ->
    Permutation (ends_of log ++ activeQueue (qState w)) (starts_of log) ->
    Forall accounted (installations opts ins w batch log).
Proof.
  induction ins as [|i rest IH]; intros w batch log Hs He; simpl.
  - constructor; [|constructor]. split; simpl; eauto.
  - destruct (step opts i w) as [w1 log1] eqn:S1.
    destruct (swaps i w) eqn:SW.
    + destruct i as [bp|now|now]; simpl in SW; try discriminate.
      simpl in S1.
      destruct (step_swap_accounts opts now w SW) as (A & B & C).
      rewrite S1 in A, B, C. simpl in A, B, C.
      constructor.
      * split; simpl.
        -- exists (queue (qState w)).
           rewrite starts_of_app, A, app_nil_r. exact Hs.
        -- exists []. rewrite starts_of_app, ends_of_app, A, B, !app_nil_r.
           exact He.
      * apply IH; [reflexivity|]. rewrite C. apply Permutation_refl.
    + pose proof (step_accounts opts i w SW) as [A B].
      rewrite S1 in A, B. simpl in A, B.
      apply IH.
      * rewrite starts_of_app, <- app_assoc, A. exact Hs.
      * rewrite starts_of_app, ends_of_app, <- app_assoc.
        eapply Permutation_trans.
        -- apply Permutation_app_head, B.
        -- rewrite app_assoc. apply Permutation_app_tail, He.
Qed.

Lemma accounted_counts (entry : Queue * list Action) (P : Effect -> bool) :
  accounted entry ->
  (length (filter P (ends_of (snd entry)))
   <= length (filter P (starts_of (snd entry)))
   <= length (filter P (fst entry)))%nat.
Proof.
  intros [(pend & Hs) (act & He)]. split.
  - rewrite <- (filter_length_perm P _ _ He), filter_app, length_app. lia.
  - rewrite <- Hs, filter_app, length_app. lia.
Qed.

(** C5.  Take any run of renders, handler runs and frames from the mounted
    provider and cut it at the batch swaps.  For each installed queue, the
    effects notified as started are, in order, a prefix of that queue, and
    the effects notified as ended (the swap's flush included) are, up to
    order, among those started.  So for every class [P] of effects there are
    no more end notifications than start notifications, and no more start
    notifications than entries of the queue: no entry is started twice or
    ended twice. *)
Theorem no_double_fire (opts : EffectsOpts) (bp : BoardProps)
  (ins : list Input) (batch : Queue) (log : list Action) :
  In (batch, log) (installations opts ins (mount bp) [] []) ->
  (exists pend, starts_of log ++ pend = batch)
  /\ (exists act, Permutation (ends_of log ++ act) (starts_of log))
  /\ (forall P : Effect -> bool,
        (length (filter P (ends_of log))
         <= length (filter P (starts_of log))
         <= length (filter P batch))%nat).
Proof.
  intros I.
  assert (A : accounted (batch, log)).
  { pose proof (installations_accounted opts ins (mount bp) [] []
                  eq_refl (Permutation_refl _)) as F.
    rewrite Forall_forall in F. apply F, I. }
  destruct A as [A1 A2]. repeat split; try assumption.
  - apply (accounted_counts (batch, log) P). split; assumption.
  - apply (accounted_counts (batch, log) P). split; assumption.
Qed.

Lemma no_double_fire_witness :
  exists log,
    In ([dmg1; dmg2], log)
       (installations defaultOpts replaced (mount props0) [] [])
    /\ (length (filter (fun _ => true) (ends_of log))
        <= length (filter (fun _ => true) (starts_of log))
        <= 2)%nat.
Proof.
  eexists. split.
  - right. left. reflexivity.
  - match goal with
    | |- context [ends_of ?l] =>
        destruct (no_double_fire defaultOpts props0 replaced
                    [dmg1; dmg2] l) as (_ & _ & H)
    end.
    + right. left. reflexivity.
    + exact (H (fun _ => true)).
Defined.

(** ** After the loop has stopped *)

Lemma quiet_run_stopped (opts : EffectsOpts) (ins : list Input) :
  forall w, rafActive w = false -> quiet opts ins w = true ->
  rafActive (fst (run opts ins w)) = false
  /\ qState (fst (run opts ins w)) = qState w
  /\ published (snd (run opts ins w)) = [].
Proof.
  induction ins as [|i rest IH]; intros w A Q; simpl.
  - auto.
  - simpl in Q. apply andb_true_iff in Q. destruct Q as [Qi Qr].
    apply negb_true_iff in Qi.
    assert (K : rafActive (fst (step opts i w)) = false
                /\ qState (fst (step opts i w)) = qState w
                /\ published (snd (step opts i w)) = []).
    { destruct i as [bp|now|now]; simpl in Qi; unfold step.
      - auto.
      - rewrite (useEffectBody_same opts now w Qi).
        destruct (sameBatch_frame opts w) as (_ & B & _ & _ & C & D & _).
        rewrite C. auto.
      - unfold tick. rewrite A. auto. }
    destruct K as (K1 & K2 & K3).
    destruct (step opts i w) as [w1 log1]. simpl in *.
    destruct (IH w1 K1 Qr) as (I1 & I2 & I3).
    destruct (run opts rest w1) as [w2 log2]. simpl in *.
    rewrite published_app, K3, I3. repeat split; congruence.
Qed.

(** C10.  A frame whose elapsed time exceeds [duration] stops the loop.  From
    then on, as long as no handler run swaps the batch, no frame runs, the
    queues stay exactly as that frame left them, whatever is still in the
    active queue included, and nothing is published.  The handler run that
    swaps the batch publishes an end notification for precisely those
    effects. *)
Theorem stopped_loop_leaves_active (opts : EffectsOpts) (now : Q)
  (w : Provider) (ins : list Input) :
  rafActive w = true ->
  (duration (boardProps w) < elapsed opts now w)%Q ->
  quiet opts ins (fst (tick opts now w)) = true ->
  let stopped := fst (tick opts now w) in
  let r := run opts ins stopped in
  rafActive stopped = false
  /\ rafActive (fst r) = false
  /\ qState (fst r) = qState stopped
  /\ published (snd r) = []
  /\ (forall now', isSwap (fst r) = true ->
        ends_of (snd (useEffectBody opts now' (fst r)))
        = activeQueue (qState stopped)).
Proof.
  intros A L Q stopped r.
  assert (S : rafActive stopped = false).
  { subst stopped. unfold tick, rafCallback. rewrite A, advance_eq. simpl.
    apply Qgtb_true in L. rewrite L. reflexivity. }
  destruct (quiet_run_stopped opts ins stopped S Q) as (R1 & R2 & R3).
  fold r in R1, R2, R3. repeat split; try assumption.
  intros now' SW.
  destruct (step_swap_accounts opts now' (fst r) SW) as (_ & E & _).
  rewrite E, R2. reflexivity.
Qed.

Lemma stopped_loop_leaves_active_witness :
  activeQueue (qState (fst (run defaultOpts idling
                              (fst (tick defaultOpts 1100 overrunning)))))
  = [{| type := "fade"; payload := None; t := 0; endT := 3 |}]
  /\ published (snd (run defaultOpts idling
                       (fst (tick defaultOpts 1100 overrunning)))) = [].
Proof.
  assert (L : (duration (boardProps overrunning)
               < elapsed defaultOpts 1100 overrunning)%Q).
  { vm_compute. reflexivity. }
  destruct (stopped_loop_leaves_active defaultOpts 1100 overrunning idling
              eq_refl L eq_refl) as (_ & _ & H1 & H2 & _).
  rewrite H1. split; [reflexivity | exact H2].
Defined.

(** ** The two-effect batch, frame by frame *)

Lemma activeLoop_Qeq (bp : BoardProps) (e e' : Q) :
  (e == e')%Q ->
  forall active acc ended log,
    activeLoop bp e active acc ended log
    = activeLoop bp e' active acc ended log.
Proof.
  intros H. induction active as [|x rest IH]; intros acc ended log; simpl.
  - reflexivity.
  - unfold Qgtb. rewrite (Qle_bool_Qeq (endT x) e e' H), !IH. reflexivity.
Qed.

Lemma queueLoop_Qeq (bp : BoardProps) (e e' : Q) :
  (e == e')%Q ->
  forall pending i acc log,
    queueLoop bp e pending i acc log = queueLoop bp e' pending i acc log.
Proof.
  intros H. induction pending as [|x rest IH]; intros i acc log; simpl.
  - reflexivity.
  - unfold Qgtb. rewrite (Qle_bool_Qeq (t x) e e' H), IH. reflexivity.
Qed.

(** The callback only compares [elapsedT]: equal rationals give the same
    frame, however they are written. *)
Lemma advance_Qeq (opts : EffectsOpts) (e e' : Q) (w : Provider) :
  (e == e')%Q -> advance opts e w = advance opts e' w.
Proof.
  intros H. unfold advance.
  rewrite (activeLoop_Qeq (boardProps w) e e' H).
  destruct (activeLoop _ e' _ _ _ _) as [[naq ended] log].
  rewrite (queueLoop_Qeq (boardProps w) e e' H).
  destruct (queueLoop _ e' _ _ _ _) as [[i naq'] log'].
  unfold Qgeb, Qgtb.
  rewrite (Qle_bool_Qeq (bgioStateT opts (boardProps w)) e e' H).
  rewrite (Qle_bool_Qeq_l e e' (duration (boardProps w)) H).
  reflexivity.
Qed.











(** ** Frames and handler runs: what they leave alone *)

Lemma advance_frame (opts : EffectsOpts) (e : Q) (w : Provider) :
  boardProps (fst (advance opts e w)) = boardProps w
  /\ startT (state (fst (advance opts e w))) = startT (state w)
  /\ prevId (state (fst (advance opts e w))) = prevId (state w).
Proof.
  rewrite advance_eq. simpl. destruct (gateOpens opts e w); auto.
Qed.

Lemma tick_running (opts : EffectsOpts) (now : Q) (w : Provider) :
  rafActive w = true -> tick opts now w = advance opts (elapsed opts now w) w.
Proof. intros A. unfold tick, rafCallback. rewrite A. reflexivity. Qed.

Lemma elapsed_after_frame (opts : EffectsOpts) (now : Q) (e : Q) (w : Provider) :
  elapsed opts now (fst (advance opts e w)) = elapsed opts now w.
Proof.
  unfold elapsed. destruct (advance_frame opts e w) as (_ & -> & _).
  reflexivity.
Qed.

Lemma useEffectBody_boardProps (opts : EffectsOpts) (now : Q) (w : Provider) :
  boardProps (fst (useEffectBody opts now w)) = boardProps w.
Proof.
  unfold useEffectBody, sameBatch, swapBatch.
  destruct (plugins_effects (boardProps w));
    [destruct (id_eqb _ _)|];
    try destruct (_ && _); reflexivity.
Qed.

Lemma isSwap_after_handler (opts : EffectsOpts) (now : Q) (w : Provider) :
  isSwap (fst (useEffectBody opts now w)) = false.
Proof.
  destruct (isSwap w) eqn:S.
  - destruct (proj1 (isSwap_true w) S) as (d & E & _).
    rewrite (useEffectBody_swap opts now w d E S).
    unfold swapBatch, isSwap, id_of. simpl. rewrite E. simpl.
    rewrite String.eqb_refl. reflexivity.
  - rewrite (useEffectBody_same opts now w S).
    destruct (sameBatch_frame opts w) as (B & _ & _ & P & _).
    unfold isSwap, id_of in *. rewrite B, P. exact S.
Qed.

Lemma sameBatch_settles (opts : EffectsOpts) (w : Provider) :
  sameBatch opts (fst (sameBatch opts w)) = (fst (sameBatch opts w), []).
Proof.
  unfold sameBatch at 2 3.
  destruct ((negb (updateStateAfterEffects opts) || negb (rafActive w))
            && negb (same_props (boardProps w) (bgioProps (state w)))) eqn:C.
  - unfold sameBatch. simpl. unfold same_props. rewrite Nat.eqb_refl.
    rewrite andb_false_r. reflexivity.
  - unfold sameBatch. simpl. rewrite C. reflexivity.
Qed.

(** X1.  A second run of the effect handler without a render in between never
    takes the swap branch, whatever the first run did: it publishes nothing
    and leaves the queues, [startT], [prevId] and the loop alone.  After it
    the handler has settled: a third run changes nothing and logs nothing. *)
Theorem handler_rerun_settles (opts : EffectsOpts) (now1 now2 now3 : Q)
  (w : Provider) :
  let w1 := fst (useEffectBody opts now1 w) in
  let r2 := useEffectBody opts now2 w1 in
  isSwap w1 = false
  /\ published (snd r2) = []
  /\ queueStates (snd r2) = []
  /\ qState (fst r2) = qState w1
  /\ startT (state (fst r2)) = startT (state w1)
  /\ prevId (state (fst r2)) = prevId (state w1)
  /\ rafActive (fst r2) = rafActive w1
  /\ useEffectBody opts now3 (fst r2) = (fst r2, []).
Proof.
  intros w1 r2.
  assert (S1 : isSwap w1 = false) by apply isSwap_after_handler.
  assert (S2 : isSwap (fst r2) = false) by apply isSwap_after_handler.
  rewrite (useEffectBody_same opts now3 (fst r2) S2).
  subst r2. rewrite (useEffectBody_same opts now2 w1 S1).
  destruct (sameBatch_frame opts w1) as (_ & A & B & C & D & E & F & _).
  repeat split; try assumption. apply sameBatch_settles.
Qed.

Lemma sameBatch_immediate (opts : EffectsOpts) (w : Provider) :
  updateStateAfterEffects opts = false ->
  same_props (boardProps w) (bgioProps (state (fst (sameBatch opts w)))) = true.
Proof.
  intros U. unfold sameBatch. rewrite U. simpl.
  destruct (same_props (boardProps w) (bgioProps (state w))) eqn:P; simpl.
  - exact P.
  - unfold same_props. apply Nat.eqb_refl.
Qed.

(** X2.  Without [updateStateAfterEffects], once the handler has run twice on
    observed props (React runs it again because it changed [state]), the
    board has those props, loop running or not; the run that installs a
    batch does not itself hand the props over. *)
Theorem default_gate_is_immediate (opts : EffectsOpts) (bp : BoardProps)
  (now now' : Q) (w : Provider) :
  updateStateAfterEffects opts = false ->
  same_props bp
    (bgioProps (state (fst (useEffectBody opts now'
                              (fst (observe opts bp now w)))))) = true
  /\ (isSwap (render bp w) = true ->
      bgioProps (state (fst (observe opts bp now w))) = bgioProps (state w)).
Proof.
  intros U. split.
  - rewrite useEffectBody_same by apply isSwap_after_handler.
    rewrite <- (sameBatch_immediate opts (fst (observe opts bp now w)) U).
    unfold observe. rewrite useEffectBody_boardProps. reflexivity.
  - intros S. unfold observe.
    destruct (proj1 (isSwap_true _) S) as (d & E & _).
    rewrite (useEffectBody_swap opts now (render bp w) d E S). reflexivity.
Qed.

Lemma default_gate_is_immediate_witness :
  bgioProps (state (fst (useEffectBody defaultOpts 5
                           (fst (observe defaultOpts props1 0
                                   (mount props0))))))
  = props1
  /\ bgioProps (state (fst (observe defaultOpts props1 0 (mount props0))))
     = props0.
Proof.
  destruct (default_gate_is_immediate defaultOpts props1 0 5 (mount props0)
              eq_refl) as [_ H].
  split; [reflexivity | apply H; reflexivity].
Defined.

(** ** The batch present at mount *)

Lemma keepsId_quiet (opts : EffectsOpts) (bp : BoardProps) (ins : list Input) :
  forall w,
    prevId (state w) = id_of bp ->
    (plugins_effects (boardProps w) = None
     \/ id_of (boardProps w) = id_of bp) ->
    rafActive w = false ->
    Forall (keepsId bp) ins ->
    quiet opts ins w = true.
Proof.
  induction ins as [|i rest IH]; intros w P B A F; simpl; [reflexivity|].
  inversion F as [|? ? Fi Fr]; subst.
  assert (S : isSwap w = false).
  { unfold isSwap. destruct B as [-> | B]; [reflexivity|].
    destruct (plugins_effects (boardProps w)); [|reflexivity].
    apply negb_false_iff, id_eqb_eq. congruence. }
  apply andb_true_iff. split.
  - destruct i; simpl; auto. rewrite S. reflexivity.
  - destruct i as [bp'|now|now]; simpl.
    + apply IH; auto.
    + rewrite (useEffectBody_same opts now w S).
      destruct (sameBatch_frame opts w) as (B' & _ & _ & P' & A' & _).
      apply IH; auto; congruence.
    + unfold tick. rewrite A. apply IH; auto.
Qed.

(** X3.  A batch that is already in the props when the provider mounts is
    never played: [prevId] starts as its id, so as long as renders bring no
    other batch id, no handler run installs a queue, the loop never starts,
    both queues stay empty and nothing is published on either emitter. *)
Theorem mounted_batch_never_played (opts : EffectsOpts) (bp : BoardProps)
  (ins : list Input) :
  Forall (keepsId bp) ins ->
  let r := run opts ins (mount bp) in
  published (snd r) = []
  /\ qState (fst r) = {| queue := []; activeQueue := [] |}
  /\ rafActive (fst r) = false.
Proof.
  intros F r.
  assert (Q : quiet opts ins (mount bp) = true).
  { apply (keepsId_quiet opts bp); auto. }
  destruct (quiet_run_stopped opts ins (mount bp) eq_refl Q) as (A & B & C).
  auto.
Qed.

Lemma mounted_batch_never_played_witness :
  published (snd (run defaultOpts sameBatchInputs (mount props1))) = [].
Proof.
  apply (mounted_batch_never_played defaultOpts props1 sameBatchInputs).
  repeat (apply Forall_cons;
          [simpl; first [exact I | right; reflexivity]|]).
  apply Forall_nil.
Defined.

(** ** Whole batches *)

Lemma Qgtb_false (a b : Q) : Qgtb a b = false <-> (a <= b)%Q.
Proof. unfold Qgtb. rewrite negb_false_iff. apply Qle_bool_iff. Qed.

Lemma duePrefix_all (e : Q) (q : Queue) :
  Forall (fun x => (t x <= e)%Q) q -> duePrefix e q = q.
Proof.
  induction 1 as [|x q H _ IH]; simpl; [reflexivity|].
  apply due_by_iff in H. rewrite H, IH. reflexivity.
Qed.

Lemma filter_ends_all (e : Q) (q : Queue) :
  Forall (fun x => (endT x <= e)%Q) q ->
  filter (ends_by e) q = q /\ filter (fun x => negb (ends_by e x)) q = [].
Proof.
  induction 1 as [|x q H _ [IH1 IH2]]; simpl; [auto|].
  apply ends_by_iff in H. rewrite H. simpl. rewrite IH1, IH2. auto.
Qed.

Lemma duePrefix_rest (e : Q) (q : Queue) :
  duePrefix e (skipn (length (duePrefix e q)) q) = [].
Proof.
  induction q as [|x q IH]; simpl; [reflexivity|].
  destruct (due_by e x) eqn:D; simpl; [exact IH|].
  rewrite D. reflexivity.
Qed.

Lemma filter_kept_none (f : Effect -> bool) (l : Queue) :
  filter f (filter (fun x => negb (f x)) l) = [].
Proof.
  induction l as [|x l IH]; simpl; [reflexivity|].
  destruct (f x) eqn:F; simpl; [exact IH|]. rewrite F. exact IH.
Qed.

Lemma filter_kept_again (f : Effect -> bool) (l : Queue) :
  filter (fun x => negb (f x)) (filter (fun x => negb (f x)) l)
  = filter (fun x => negb (f x)) l.
Proof.
  induction l as [|x l IH]; simpl; [reflexivity|].
  destruct (f x) eqn:F; simpl; [exact IH|]. rewrite F. simpl. f_equal. exact IH.
Qed.

(** X4.  If the first frame after an install comes late, at an elapsed time
    past [duration] when every effect of the batch is due, that one frame
    starts the whole batch, ends nothing (effects whose [endT] has passed
    included), moves the whole batch to the active queue and stops the loop.
    Until another batch is swapped in, nothing more is published: none of
    the started effects gets its end notification. *)
Theorem late_first_frame_strands_batch (opts : EffectsOpts) (now : Q)
  (w : Provider) (ins : list Input) :
  rafActive w = true ->
  activeQueue (qState w) = [] ->
  Forall (fun x => (t x <= elapsed opts now w)%Q) (queue (qState w)) ->
  (duration (boardProps w) < elapsed opts now w)%Q ->
  quiet opts ins (fst (tick opts now w)) = true ->
  let r := tick opts now w in
  starts_of (snd r) = queue (qState w)
  /\ ends_of (snd r) = []
  /\ qState (fst r) = {| queue := []; activeQueue := queue (qState w) |}
  /\ rafActive (fst r) = false
  /\ published (snd (run opts ins (fst r))) = []
  /\ qState (fst (run opts ins (fst r))) = qState (fst r).
Proof.
  intros A E D L Q r.
  assert (S : rafActive (fst r) = false).
  { subst r. rewrite (tick_running opts now w A), advance_eq. simpl.
    apply Qgtb_true in L. rewrite L. reflexivity. }
  destruct (quiet_run_stopped opts ins (fst r) S Q) as (_ & R2 & R3).
  subst r. rewrite (tick_running opts now w A) in *.
  assert (Q1 : qState (fst (advance opts (elapsed opts now w) w))
               = {| queue := []; activeQueue := queue (qState w) |}).
  { rewrite advance_qState. unfold nextQueueState.
    rewrite E, (duePrefix_all _ _ D), skipn_all. reflexivity. }
  rewrite R2, Q1, advance_starts, advance_ends, E, (duePrefix_all _ _ D).
  simpl. auto 10.
Qed.

Lemma late_first_frame_strands_batch_witness :
  starts_of (snd (tick defaultOpts 2000 (delivered 0))) = [dmg1; dmg2]
  /\ ends_of (snd (tick defaultOpts 2000 (delivered 0))) = []
  /\ published
       (snd (run defaultOpts [Tick 2016; RunEffect 2020; Tick 9000]
               (fst (tick defaultOpts 2000 (delivered 0))))) = [].
Proof.
  assert (D : Forall (fun x => (t x <= elapsed defaultOpts 2000 (delivered 0))%Q)
                (queue (qState (delivered 0)))).
  { repeat (apply Forall_cons; [vm_compute; discriminate|]). apply Forall_nil. }
  assert (L : (duration (boardProps (delivered 0))
               < elapsed defaultOpts 2000 (delivered 0))%Q).
  { vm_compute. reflexivity. }
  destruct (late_first_frame_strands_batch defaultOpts 2000 (delivered 0)
              [Tick 2016; RunEffect 2020; Tick 9000]
              eq_refl eq_refl D L eq_refl) as (H1 & H2 & _ & _ & H3 & _).
  rewrite H1, H2. split; [reflexivity | split; [reflexivity | exact H3]].
Defined.

(** X5.  Two frames are enough to play a whole batch: after an install, a
    frame at an elapsed time that has reached every [t] without passing
    [duration] starts every effect, in queue order, and ends none; a second
    frame whose elapsed time has reached every [endT] ends every effect, in
    the same order, starts none and leaves both queues empty. *)
Theorem two_frames_play_batch (opts : EffectsOpts) (now1 now2 : Q)
  (w : Provider) :
  rafActive w = true ->
  activeQueue (qState w) = [] ->
  Forall (fun x => (t x <= elapsed opts now1 w)%Q) (queue (qState w)) ->
  (elapsed opts now1 w <= duration (boardProps w))%Q ->
  Forall (fun x => (endT x <= elapsed opts now2 w)%Q) (queue (qState w)) ->
  let r1 := tick opts now1 w in
  let r2 := tick opts now2 (fst r1) in
  (starts_of (snd r1) = queue (qState w) /\ ends_of (snd r1) = [])
  /\ (starts_of (snd r2) = [] /\ ends_of (snd r2) = queue (qState w))
  /\ qState (fst r2) = {| queue := []; activeQueue := [] |}.
Proof.
  intros A E D1 L D2 r1 r2.
  assert (A1 : rafActive (fst r1) = true).
  { subst r1. rewrite (tick_running opts now1 w A), advance_eq. simpl.
    apply Qgtb_false in L. rewrite L. exact A. }
  assert (Q1 : qState (fst r1)
               = {| queue := []; activeQueue := queue (qState w) |}).
  { subst r1. rewrite (tick_running opts now1 w A), advance_qState.
    unfold nextQueueState. rewrite E, (duePrefix_all _ _ D1), skipn_all.
    reflexivity. }
  assert (E2 : elapsed opts now2 (fst r1) = elapsed opts now2 w).
  { subst r1. rewrite (tick_running opts now1 w A).
    apply elapsed_after_frame. }
  subst r2. rewrite (tick_running opts now2 (fst r1) A1).
  rewrite advance_starts, advance_ends, advance_qState.
  unfold nextQueueState. rewrite Q1, E2. simpl.
  destruct (filter_ends_all _ _ D2) as [-> ->].
  subst r1. rewrite (tick_running opts now1 w A).
  rewrite advance_starts, advance_ends, E, (duePrefix_all _ _ D1).
  simpl. auto.
Qed.

Lemma two_frames_play_batch_witness :
  ends_of (snd (tick defaultOpts 1500
                  (fst (tick defaultOpts 500 (delivered 0)))))
  = [dmg1; dmg2].
Proof.
  assert (D1 : Forall (fun x => (t x <= elapsed defaultOpts 500 (delivered 0))%Q)
                 (queue (qState (delivered 0)))).
  { repeat (apply Forall_cons; [vm_compute; discriminate|]). apply Forall_nil. }
  assert (D2 : Forall
                 (fun x => (endT x <= elapsed defaultOpts 1500 (delivered 0))%Q)
                 (queue (qState (delivered 0)))).
  { repeat (apply Forall_cons; [vm_compute; discriminate|]). apply Forall_nil. }
  assert (L : (elapsed defaultOpts 500 (delivered 0)
               <= duration (boardProps (delivered 0)))%Q).
  { vm_compute. discriminate. }
  destruct (two_frames_play_batch defaultOpts 500 1500 (delivered 0)
              eq_refl eq_refl D1 L D2) as (_ & (_ & H) & _).
  rewrite H. reflexivity.
Defined.

(** X6.  A frame repeated at the same time starts nothing a second time.  The
    second frame ends exactly those effects the first one started whose
    [endT] had already passed; a third frame at that time publishes nothing
    and leaves the queues alone. *)
Theorem repeated_frame_starts_nothing (opts : EffectsOpts) (now : Q)
  (w : Provider) :
  let e := elapsed opts now w in
  let r1 := rafCallback opts now w in
  let r2 := rafCallback opts now (fst r1) in
  let r3 := rafCallback opts now (fst r2) in
  starts_of (snd r2) = []
  /\ ends_of (snd r2) = filter (ends_by e) (starts_of (snd r1))
  /\ published (snd r3) = []
  /\ qState (fst r3) = qState (fst r2).
Proof.
  intros e r1 r2 r3. subst r3 r2 r1. unfold rafCallback.
  rewrite !elapsed_after_frame. fold e.
  set (w1 := fst (advance opts e w)).
  set (w2 := fst (advance opts e w1)).
  assert (H1 : qState w1 = nextQueueState e w) by apply advance_qState.
  assert (N1 : duePrefix e (queue (qState w1)) = []).
  { rewrite H1. apply duePrefix_rest. }
  assert (H2 : qState w2
               = {| queue := queue (qState w1);
                    activeQueue :=
                      filter (fun x => negb (ends_by e x))
                        (activeQueue (qState w1)) |}).
  { unfold w2. rewrite advance_qState. unfold nextQueueState.
    rewrite N1, app_nil_r. reflexivity. }
  rewrite advance_published, !advance_starts, !advance_ends, advance_qState.
  fold w1 w2. unfold nextQueueState. rewrite H2. simpl.
  rewrite N1, filter_kept_none, filter_kept_again, app_nil_r. simpl.
  repeat split.
  - rewrite H1. unfold nextQueueState. simpl.
    rewrite filter_app, filter_kept_none. reflexivity.
  - rewrite app_nil_r. reflexivity.
Qed.

(** ** The speed multiplier *)

(** X7.  Speed 0 freezes the clock: whatever the time, a frame under speed 0
    is the frame that speed 1 produces at the install instant [startT], at
    elapsed time 0. *)
Theorem zero_speed_freezes_clock (s : Q) (u : bool) (now : Q) (w : Provider) :
  (s == 0)%Q ->
  rafCallback (withSpeed s u) now w
  = rafCallback (withSpeed 1 u) (startT (state w)) w.
Proof.
  intros Z.
  assert (I : forall e, advance (withSpeed s u) e w
                        = advance (withSpeed 1 u) e w) by reflexivity.
  unfold rafCallback. rewrite !I.
  apply advance_Qeq. unfold elapsed. simpl. rewrite Z. field.
Qed.

Lemma zero_speed_freezes_clock_witness :
  starts_of (snd (rafCallback (withSpeed 0 false) 86400000 (delivered 0)))
  = [dmg1].
Proof.
  rewrite (zero_speed_freezes_clock 0 false 86400000 (delivered 0));
    reflexivity.
Defined.

(** ** Sortedness of the pending queue *)

Lemma ascending_skipn (n : nat) (q : Queue) :
  ascending q -> ascending (skipn n q).
Proof.
  revert q. induction n as [|n IH]; intros q S; simpl; [exact S|].
  destruct q as [|x q]; [exact S|].
  apply IH. inversion S; assumption.
Qed.

Lemma step_keeps_ascending (opts : EffectsOpts) (i : Input) (w : Provider) :
  ascending (queue (qState w)) -> ascendingProps (boardProps w) ->
  ascendingInput i ->
  ascending (queue (qState (fst (step opts i w))))
  /\ ascendingProps (boardProps (fst (step opts i w))).
Proof.
  intros S P I. destruct i as [bp|now|now]; simpl.
  - auto.
  - rewrite useEffectBody_boardProps. split; [|exact P].
    destruct (isSwap w) eqn:SW.
    + destruct (proj1 (isSwap_true w) SW) as (d & E & _).
      rewrite (useEffectBody_swap opts now w d E SW). simpl. apply P, E.
    + rewrite (useEffectBody_same opts now w SW).
      destruct (sameBatch_frame opts w) as (_ & -> & _). exact S.
  - unfold tick. destruct (rafActive w); [|auto].
    unfold rafCallback. rewrite advance_qState.
    destruct (advance_frame opts (elapsed opts now w) w) as (-> & _).
    split; [|exact P]. simpl. apply ascending_skipn, S.
Qed.

(** X8.  The pending queue stays in ascending order of [t]: if it is
    ascending, and so are the batch of the current props and the batches of
    all props rendered later, then after any run of renders, handler runs
    and frames the pending queue is ascending again, so the early exit of
    the scan never skips a due effect. *)
Theorem pending_stays_ascending (opts : EffectsOpts) (ins : list Input)
  (w : Provider) :
  ascending (queue (qState w)) ->
  ascendingProps (boardProps w) ->
  Forall ascendingInput ins ->
  ascending (queue (qState (fst (run opts ins w)))).
Proof.
  revert w. induction ins as [|i rest IH]; intros w S P F; simpl.
  - exact S.
  - inversion F as [|? ? Fi Fr]; subst.
    destruct (step_keeps_ascending opts i w S P Fi) as [S1 P1].
    destruct (step opts i w) as [w1 log1]. simpl in *.
    specialize (IH w1 S1 P1 Fr).
    destruct (run opts rest w1) as [w2 log2]. exact IH.
Qed.

Lemma pending_stays_ascending_witness :
  ascending (queue (qState (fst (run defaultOpts
                                   [Render props1; RunEffect 0; Tick 0]
                                   (mount props0))))).
Proof.
  apply pending_stays_ascending.
  - constructor.
  - intros d E. discriminate E.
  - repeat (apply Forall_cons; [|]); try exact I; [|apply Forall_nil].
    intros d E. injection E as <-.
    repeat constructor. vm_compute. discriminate.
Defined.

(** ** Installations that have been replaced *)

Lemma installations_nonempty (opts : EffectsOpts) (ins : list Input) :
  forall w batch log, installations opts ins w batch log <> [].
Proof.
  induction ins as [|i rest IH]; intros w batch log; simpl; [discriminate|].
  destruct (step opts i w) as [w1 log1].
  destruct (swaps i w); [discriminate | apply IH].
Qed.

Lemma installations_settled (opts : EffectsOpts) (ins : list Input) :
  forall (w : Provider) (batch : Queue) (log : list Action),
    Permutation (ends_of log ++ activeQueue (qState w)) (starts_of log) ->
    Forall settled (removelast (installations opts ins w batch log)).
Proof.
  induction ins as [|i rest IH]; intros w batch log He; simpl.
  - constructor.
  - destruct (step opts i w) as [w1 log1] eqn:S1.
    destruct (swaps i w) eqn:SW.
    + destruct i as [bp|now|now]; simpl in SW; try discriminate.
      simpl in S1.
      destruct (step_swap_accounts opts now w SW) as (A & B & C).
      rewrite S1 in A, B, C. simpl in A, B, C.
      pose proof (installations_nonempty opts rest w1 (queue (qState w1)) [])
        as NE.
      specialize (IH w1 (queue (qState w1)) []).
      destruct (installations opts rest w1 (queue (qState w1)) [])
        as [|en more] eqn:EI; [congruence|].
      constructor.
      * unfold settled. simpl.
        rewrite starts_of_app, ends_of_app, A, B, app_nil_r. exact He.
      * apply IH. rewrite C. apply Permutation_refl.
    + pose proof (step_accounts opts i w SW) as [A B].
      rewrite S1 in A, B. simpl in A, B.
      apply IH.
      rewrite starts_of_app, ends_of_app, <- app_assoc.
      eapply Permutation_trans.
      * apply Permutation_app_head, B.
      * rewrite app_assoc. apply Permutation_app_tail, He.
Qed.

(** X9.  Once a batch has been replaced, every effect of it that was started
    has been ended exactly once: over the part of a run during which a queue
    was installed, closed by the handler run that swaps it out, the end
    notifications are a rearrangement of the start notifications. *)
Theorem replaced_batch_fully_ended (opts : EffectsOpts) (bp : BoardProps)
  (ins : list Input) (batch : Queue) (log : list Action) :
  In (batch, log) (removelast (installations opts ins (mount bp) [] [])) ->
  Permutation (ends_of log) (starts_of log).
Proof.
  intros I.
  pose proof (installations_settled opts ins (mount bp) [] []
                (Permutation_refl _)) as F.
  rewrite Forall_forall in F. apply (F (batch, log) I).
Qed.

Lemma replaced_batch_fully_ended_witness :
  exists log,
    In ([dmg1; dmg2], log)
       (removelast (installations defaultOpts replaced (mount props0) [] []))
    /\ Permutation (ends_of log) (starts_of log).
Proof.
  eexists. split.
  - right. left. reflexivity.
  - match goal with
    | |- Permutation (ends_of ?l) _ =>
        apply (replaced_batch_fully_ended defaultOpts props0 replaced
                 [dmg1; dmg2] l)
    end.
    right. left. reflexivity.
Defined.

(** ** The cells and their setters *)

Lemma setStates_app (l1 l2 : list Action) :
  setStates (l1 ++ l2) = setStates l1 ++ setStates l2.
Proof.
  induction l1 as [|a l1 IH]; simpl; [reflexivity|].
  destruct a; simpl; rewrite IH; reflexivity.
Qed.

Lemma loopCalls_app (l1 l2 : list Action) :
  loopCalls (l1 ++ l2) = loopCalls l1 ++ loopCalls l2.
Proof.
  induction l1 as [|a l1 IH]; simpl; [reflexivity|].
  destruct a; simpl; rewrite IH; reflexivity.
Qed.

Lemma emitAll_silent (em : Channel) (q : Queue) (bp : BoardProps) :
  setStates (emitAllEffects em q bp) = []
  /\ loopCalls (emitAllEffects em q bp) = [].
Proof. induction q as [|x q IH]; simpl; auto. Qed.

Lemma last_cons_default (A : Type) (l : list A) (x d d' : A) :
  last (x :: l) d = last (x :: l) d'.
Proof.
  revert x. induction l as [|y l IH]; intros x; [reflexivity|].
  change (last (y :: l) d = last (y :: l) d'). apply IH.
Qed.

Lemma last_app_default (A : Type) (l1 l2 : list A) (d : A) :
  last (l1 ++ l2) d = last l2 (last l1 d).
Proof.
  induction l1 as [|a l1 IH]; [reflexivity|].
  destruct l1 as [|b l1].
  - destruct l2 as [|c l2]; [reflexivity|].
    change (last (c :: l2) d = last (c :: l2) a). apply last_cons_default.
  - change (last ((b :: l1) ++ l2) d = last l2 (last (b :: l1) d)).
    exact IH.
Qed.

Lemma step_cells (opts : EffectsOpts) (i : Input) (w : Provider) :
  qState (fst (step opts i w))
  = last (queueStates (snd (step opts i w))) (qState w)
  /\ state (fst (step opts i w))
     = last (setStates (snd (step opts i w))) (state w)
  /\ rafActive (fst (step opts i w))
     = last (loopCalls (snd (step opts i w))) (rafActive w).
Proof.
  destruct i as [bp|now|now]; simpl.
  - auto.
  - unfold useEffectBody, sameBatch, swapBatch.
    destruct (plugins_effects (boardProps w)) as [d|];
      [destruct (id_eqb _ _)|];
      try destruct (_ && _); simpl; auto.
    rewrite queueStates_app, setStates_app, loopCalls_app,
      queueStates_emitAll.
    destruct (emitAll_silent endEmitter (activeQueue (qState w))
                (boardProps w)) as [-> ->].
    simpl. auto.
  - unfold tick. destruct (rafActive w) eqn:A; [|simpl; auto].
    unfold rafCallback. rewrite advance_eq. simpl.
    rewrite !queueStates_app, !setStates_app, !loopCalls_app,
      !queueStates_emitAll.
    destruct (emitAll_silent endEmitter
                (filter (ends_by (elapsed opts now w))
                   (activeQueue (qState w))) (boardProps w)) as [-> ->].
    destruct (emitAll_silent emitter
                (duePrefix (elapsed opts now w) (queue (qState w)))
                (boardProps w)) as [-> ->].
    destruct (gateOpens opts (elapsed opts now w) w),
      (Qgtb (elapsed opts now w) (duration (boardProps w))),
      (busy (elapsed opts now w) w); simpl; auto.
Qed.

(** X10.  The cells only change through their setters.  After any run, the
    queue state in the ref is the argument of the last [setQueueState] call
    (so React was asked to re-render for it), [state] is the argument of the
    last [setState] call, and the loop is active exactly if the last call
    among [startRaf] and [stopRaf] was [startRaf]; with no such call the
    cell is as it was. *)
Theorem cells_follow_setters (opts : EffectsOpts) (ins : list Input)
  (w : Provider) :
  qState (fst (run opts ins w))
  = last (queueStates (snd (run opts ins w))) (qState w)
  /\ state (fst (run opts ins w))
     = last (setStates (snd (run opts ins w))) (state w)
  /\ rafActive (fst (run opts ins w))
     = last (loopCalls (snd (run opts ins w))) (rafActive w).
Proof.
  revert w. induction ins as [|i rest IH]; intros w; simpl; [auto|].
  destruct (step_cells opts i w) as (A & B & C).
  destruct (step opts i w) as [w1 log1]. simpl in *.
  destruct (IH w1) as (A1 & B1 & C1).
  destruct (run opts rest w1) as [w2 log2]. simpl in *.
  rewrite queueStates_app, setStates_app, loopCalls_app, !last_app_default.
  rewrite <- A, <- B, <- C. auto.
Qed.

(** ** What the board is handed, and when the clock restarts *)

Lemma step_provenance (opts : EffectsOpts) (i : Input) (w : Provider) :
  (bgioProps (state (fst (step opts i w))) = bgioProps (state w)
   \/ bgioProps (state (fst (step opts i w))) = boardProps w)
  /\ In (boardProps (fst (step opts i w))) (boardProps w :: rendered [i]).
Proof.
  destruct i as [bp|now|now]; simpl.
  - auto.
  - rewrite useEffectBody_boardProps. split; [|auto].
    unfold useEffectBody, sameBatch, swapBatch.
    destruct (plugins_effects (boardProps w)) as [d|];
      [destruct (id_eqb _ _)|];
      try destruct (_ && _); simpl; auto.
  - unfold tick. destruct (rafActive w); [|auto].
    unfold rafCallback. rewrite advance_eq. simpl.
    destruct (gateOpens opts (elapsed opts now w) w); simpl; auto.
Qed.

(** X11.  The board is only ever handed props the host delivered: after any
    run, [bgioProps] is the value it had, the props of the render the run
    began under, or the props of one of the run's renders. *)
Theorem board_props_are_delivered (opts : EffectsOpts) (ins : list Input)
  (w : Provider) :
  In (bgioProps (state (fst (run opts ins w))))
     (bgioProps (state w) :: boardProps w :: rendered ins)
  /\ In (boardProps (fst (run opts ins w))) (boardProps w :: rendered ins).
Proof.
  revert w. induction ins as [|i rest IH]; intros w; simpl; [auto|].
  destruct (step_provenance opts i w) as (A & B).
  destruct (step opts i w) as [w1 log1]. simpl in *.
  destruct (IH w1) as (A1 & B1).
  destruct (run opts rest w1) as [w2 log2]. simpl in *.
  assert (R : forall x, In x (boardProps w1 :: rendered rest) ->
                        In x (boardProps w
                              :: match i with
                                 | Render bp => bp :: rendered rest
                                 | _ => rendered rest
                                 end)).
  { intros x [ <- | H ].
    - destruct i; simpl in B; destruct B as [ <- | B ]; simpl; auto;
        try contradiction.
      destruct B as [ <- | [] ]. auto.
    - destruct i; simpl; auto. }
  split.
  - destruct A1 as [E|[E|H]].
    + rewrite <- E. destruct A as [ -> | -> ]; simpl; auto.
    + right. rewrite <- E. destruct i; apply R; left; reflexivity.
    + right. destruct i; apply R; right; exact H.
  - destruct i; apply R; exact B1.
Qed.

(** X12.  The clock restarts only when a batch is swapped in: over any run in
    which no handler run takes the swap branch, [startT] and [prevId] keep
    their values and [startRaf] is never called, however many frames,
    renders and handler runs there are. *)
Theorem timeline_fixed_between_swaps (opts : EffectsOpts) (ins : list Input)
  (w : Provider) :
  quiet opts ins w = true ->
  startT (state (fst (run opts ins w))) = startT (state w)
  /\ prevId (state (fst (run opts ins w))) = prevId (state w)
  /\ ~ In StartRaf (snd (run opts ins w)).
Proof.
  revert w. induction ins as [|i rest IH]; intros w Q; simpl; [auto|].
  simpl in Q. apply andb_true_iff in Q. destruct Q as [Qi Qr].
  apply negb_true_iff in Qi.
  assert (K : startT (state (fst (step opts i w))) = startT (state w)
              /\ prevId (state (fst (step opts i w))) = prevId (state w)
              /\ ~ In StartRaf (snd (step opts i w))).
  { destruct i as [bp|now|now]; simpl in Qi; unfold step.
    - simpl. auto.
    - rewrite (useEffectBody_same opts now w Qi).
      destruct (sameBatch_frame opts w)
        as (_ & _ & B & C & _ & _ & _ & D & _). auto.
    - unfold tick. destruct (rafActive w); [|simpl; auto].
      unfold rafCallback.
      destruct (advance_frame opts (elapsed opts now w) w) as (_ & B & C).
      repeat split; try assumption.
      rewrite advance_eq. simpl. rewrite !in_app_iff, !emitAll_map.
      intros [H|[H|[H|[H|H]]]].
      + apply in_map_iff in H. destruct H as (? & H & _). discriminate H.
      + apply in_map_iff in H. destruct H as (? & H & _). discriminate H.
      + destruct (gateOpens _ _ _); simpl in H; [destruct H as [H|[]]|];
          [discriminate H | contradiction].
      + destruct (Qgtb _ _); simpl in H; [destruct H as [H|[]]|];
          [discriminate H | contradiction].
      + destruct (busy _ _); simpl in H; [destruct H as [H|[]]|];
          [discriminate H | contradiction]. }
  destruct K as (K1 & K2 & K3).
  destruct (step opts i w) as [w1 log1]. simpl in *.
  destruct (IH w1 Qr) as (I1 & I2 & I3).
  destruct (run opts rest w1) as [w2 log2]. simpl in *.
  repeat split; try congruence.
  rewrite in_app_iff. tauto.
Qed.

Lemma timeline_fixed_between_swaps_witness :
  startT (state (fst (run defaultOpts
                        [Tick 100; Render props1'; RunEffect 300; Tick 700]
                        (delivered 50)))) = 50.
Proof.
  destruct (timeline_fixed_between_swaps defaultOpts
              [Tick 100; Render props1'; RunEffect 300; Tick 700]
              (delivered 50) eq_refl) as (H & _).
  rewrite H. reflexivity.
Defined.

(** ** The gate outside of playback, and the end of playback *)

(** X13.  While the loop is not running, an observation that does not swap
    the batch hands the observed props to the board at once, with or without
    [updateStateAfterEffects]. *)
Theorem idle_loop_exposes_at_once (opts : EffectsOpts) (bp : BoardProps)
  (now : Q) (w : Provider) :
  rafActive w = false ->
  isSwap (render bp w) = false ->
  same_props bp (bgioProps (state (fst (observe opts bp now w)))) = true.
Proof.
  intros A S. unfold observe. rewrite (useEffectBody_same opts now _ S).
  unfold sameBatch. simpl. rewrite A, orb_true_r. simpl.
  destruct (same_props bp (bgioProps (state w))) eqn:P; simpl.
  - exact P.
  - unfold same_props. apply Nat.eqb_refl.
Qed.

Lemma idle_loop_exposes_at_once_witness :
  same_props props1'
    (bgioProps (state (fst (observe deferOpts props1' 40 (mount props1)))))
  = true.
Proof.
  exact (idle_loop_exposes_at_once deferOpts props1' 40 (mount props1)
           eq_refl eq_refl).
Defined.

(** X14.  A running loop stops at a frame exactly when that frame's elapsed
    time exceeds [duration].  When it stops, and [duration] is not negative,
    the board has the latest props: the loop never stops on a closed
    gate. *)
Theorem loop_stops_past_duration (opts : EffectsOpts) (now : Q)
  (w : Provider) :
  rafActive w = true ->
  (rafActive (fst (tick opts now w)) = false
   <-> (duration (boardProps w) < elapsed opts now w)%Q)
  /\ ((duration (boardProps w) < elapsed opts now w)%Q ->
      (0 <= duration (boardProps w))%Q ->
      same_props (boardProps w) (bgioProps (state (fst (tick opts now w))))
      = true).
Proof.
  intros A. rewrite (tick_running opts now w A), advance_eq. simpl.
  set (e := elapsed opts now w). split.
  - rewrite <- Qgtb_true. rewrite A.
    destruct (Qgtb e (duration (boardProps w))); split; congruence.
  - intros L Z. unfold gateOpens.
    assert (G : Qgeb e (bgioStateT opts (boardProps w)) = true).
    { apply Qgeb_true. unfold bgioStateT.
      destruct (updateStateAfterEffects opts).
      - apply Qlt_le_weak, L.
      - apply Qlt_le_weak. eapply Qle_lt_trans; eauto. }
    rewrite G. simpl.
    destruct (same_props (boardProps w) (bgioProps (state w))) eqn:P; simpl.
    + exact P.
    + unfold same_props. apply Nat.eqb_refl.
Qed.

Lemma loop_stops_past_duration_witness :
  rafActive (fst (tick deferOpts 2016 deferringSlow)) = false
  /\ bgioProps (state (fst (tick deferOpts 2016 deferringSlow))) = propsSlow.
Proof.
  destruct (loop_stops_past_duration deferOpts 2016 deferringSlow eq_refl)
    as [[_ H] _].
  split; [apply H; vm_compute; reflexivity | reflexivity].
Defined.

(** X15.  An idle frame does nothing at all: when no active effect is over,
    the first pending effect is not due, the board already has the latest
    props or the gate threshold is not reached, and the elapsed time does not
    exceed [duration], the frame returns the provider unchanged and makes no
    call, so React is not asked to re-render. *)
Theorem idle_frame_is_noop (opts : EffectsOpts) (now : Q) (w : Provider) :
  rafActive w = true ->
  Forall (fun x => (elapsed opts now w < endT x)%Q) (activeQueue (qState w)) ->
  (forall x, hd_error (queue (qState w)) = Some x ->
             (elapsed opts now w < t x)%Q) ->
  (same_props (boardProps w) (bgioProps (state w)) = true
   \/ (elapsed opts now w < bgioStateT opts (boardProps w))%Q) ->
  (elapsed opts now w <= duration (boardProps w))%Q ->
  tick opts now w = (w, []).
Proof.
  intros A E D G L. rewrite (tick_running opts now w A), advance_eq.
  set (e := elapsed opts now w) in *.
  assert (B : busy e w = false).
  { unfold busy. apply orb_false_iff. split.
    - destruct (queue (qState w)) as [|x q]; [reflexivity|]. simpl.
      specialize (D x eq_refl). apply Qgtb_true in D.
      rewrite Qgtb_t in D. apply negb_true_iff in D. rewrite D. reflexivity.
    - rewrite <- not_true_iff_false, existsb_exists. intros (x & I & H).
      rewrite Forall_forall in E. specialize (E x I).
      apply ends_by_iff in H. apply Qlt_not_le in E. contradiction. }
  assert (O : gateOpens opts e w = false).
  { unfold gateOpens. destruct G as [-> | G].
    - apply andb_false_r.
    - apply Qgtb_true in G. unfold Qgtb in G. apply negb_true_iff in G.
      unfold Qgeb. rewrite G. reflexivity. }
  apply Qgtb_false in L. rewrite B, O, L.
  destruct (filter_none _ _ _ (proj2 (proj1 (orb_false_iff _ _) B)))
    as [-> _].
  destruct (duePrefix e (queue (qState w))) eqn:P.
  - simpl. destruct w; reflexivity.
  - unfold busy in B. rewrite P in B. discriminate B.
Qed.

Lemma idle_frame_is_noop_witness :
  tick defaultOpts 250 (fst (tick defaultOpts 0 (delivered 0)))
  = (fst (tick defaultOpts 0 (delivered 0)), []).
Proof.
  apply idle_frame_is_noop.
  - reflexivity.
  - repeat (apply Forall_cons; [vm_compute; reflexivity|]). apply Forall_nil.
  - intros x H. injection H as <-. vm_compute. reflexivity.
  - left. reflexivity.
  - vm_compute. discriminate.
Defined.

(** X16.  What a frame starts and ends, and the queues it leaves, depend on
    the installed queues and the clock only: rendering other props before
    the frame changes none of them; every notification of the frame then
    carries the props of that render. *)
Theorem playback_ignores_props (opts : EffectsOpts) (bp : BoardProps)
  (now : Q) (w : Provider) :
  starts_of (snd (rafCallback opts now (render bp w)))
  = starts_of (snd (rafCallback opts now w))
  /\ ends_of (snd (rafCallback opts now (render bp w)))
     = ends_of (snd (rafCallback opts now w))
  /\ qState (fst (rafCallback opts now (render bp w)))
     = qState (fst (rafCallback opts now w))
  /\ Forall (fun n => shape_boardProps (envelope n) = bp)
       (published (snd (rafCallback opts now (render bp w)))).
Proof.
  unfold rafCallback.
  change (elapsed opts now (render bp w)) with (elapsed opts now w).
  rewrite !advance_starts, !advance_ends, !advance_qState, advance_published.
  repeat split.
  apply Forall_app. split; apply Forall_forall; intros n H;
    apply in_map_iff in H; destruct H as (x & <- & _); reflexivity.
Qed.
